(** * Cloudflare status relay for ICN (Seoul): model and verification

    A shallow embedding of the worker that polls the Cloudflare status API,
    keeps the components related to ICN, and posts a block message to a
    Slack webhook.  The embedding follows the JavaScript sources:

    - [src/config/constants.js]: the configuration constants;
    - [src/api/cloudflareStatus.js]: the API client
      ([fetchICNComponentsStatus], [fetchUnresolvedIncidents],
      [filterForICN]);
    - [src/notifications/slack.js]: the Slack formatter and sender;
    - [src/index.js], in its two versions: the checks
      ([checkICNComponents], [checkUnresolvedIncidents]) and the scheduled
      handler.

    JavaScript strings are modelled as Rocq strings (byte sequences holding
    the UTF-8 encoding of the text); concatenation, equality, substring
    search and replacement of ASCII patterns act on them as they do on the
    JavaScript strings they encode.  JSON objects are modelled by records
    of the properties the program reads. *)

From Stdlib Require Import Ascii.
From stdpp Require Import gmap strings list pretty.

Open Scope string_scope.
Open Scope list_scope.

(** ** The host: what the JavaScript runtime and the network provide *)

(** Thrown values.  [Error message] is [new Error(message)]; [TypeError]
    is what the engine throws when a property of [undefined] or [null] is
    read (its message is engine specific and not modelled); [SyntaxError]
    is what [response.json()] throws on a body that is not JSON. *)
Inductive exn :=
  | Error (message : string)
  | TypeError
  | SyntaxError.

(** The result of evaluating an expression that may throw. *)
Inductive outcome (A : Type) :=
  | Returned (a : A)
  | Thrown (e : exn).
Arguments Returned {A} a.
Arguments Thrown {A} e.

#[global] Instance outcome_ret : MRet outcome := @Returned.
#[global] Instance outcome_bind : MBind outcome := λ A B f m,
  match m with
  | Returned a => f a
  | Thrown e => Thrown e
  end.

(** ** JavaScript string primitives *)

Definition nl : string := String (Ascii.ascii_of_nat 10) "".

(** [s.includes(k)]: [k] occurs in [s] at some position. *)
Fixpoint includes (s k : string) : bool :=
  String.prefix k s ||
  match s with
  | EmptyString => false
  | String _ s' => includes s' k
  end.

(** Dropping the first [n] characters. *)
Fixpoint string_drop (n : nat) (s : string) : string :=
  match n, s with
  | S n', String _ s' => string_drop n' s'
  | _, _ => s
  end.

(** [s.replace(pat, rep)] with a string pattern: only the first occurrence
    of [pat] is replaced ([rep] holds no [$] pattern in this program). *)
Fixpoint replace (s pat rep : string) : string :=
  if String.prefix pat s then rep +:+ string_drop (String.length pat) s
  else match s with
       | EmptyString => EmptyString
       | String c s' => String c (replace s' pat rep)
       end.

(** Truthiness of a possibly absent string: [undefined], [null] and the
    empty string are falsy. *)
Definition truthy (o : option string) : bool :=
  match o with
  | Some s => negb (String.eqb s "")
  | None => false
  end.

(** [o || d] for a possibly absent string [o]. *)
Definition or_else (o : option string) (d : string) : string :=
  match o with
  | Some s => if String.eqb s "" then d else s
  | None => d
  end.

(** [String.join]: [l.join(sep)]. *)
Fixpoint join (sep : string) (l : list string) : string :=
  match l with
  | [] => ""
  | [x] => x
  | x :: l' => x +:+ sep +:+ join sep l'
  end.

(** ** The documents of the status API

    Typed views of the JSON objects the program reads.  A field the code
    reads behind a guard, or that may be missing upstream, is an [option]
    ([None]: the property is [undefined] or [null]). *)

(** A component.  [name] is read with no guard
    ([component.name.toLowerCase()]) and every component of the API has
    one; [description] and [status] may be absent. *)
Module Component.
Record t := make {
  name : string;
  description : option string;
  status : option string;
}.
End Component.

Module Status.
Record t := make {
  indicator : option string;
  description : option string;
}.
End Status.

Module Update.
Record t := make {
  status : option string;
  body : string;
  created_at : string;
}.
End Update.

Module Incident.
Record t := make {
  name : string;
  status : option string;
  impact : option string;
  monitoring : bool;
  incident_updates : option (list Update.t);
  components : option (list Component.t);
}.
End Incident.

(** A top-level document: [status.json], the components listing and the
    unresolved incidents listing are all JSON objects of which the program
    reads the properties [status], [components] and [incidents].  [rest]
    holds the other own properties (such as [page]) as raw JSON text. *)
Module Doc.
Record t := make {
  status : option Status.t;
  components : option (list Component.t);
  incidents : option (list Incident.t);
  rest : list (string * string);
}.

(** [{ ...d, components: cs }] *)
Definition with_components (d : t) (cs : list Component.t) : t :=
  {| status := status d; components := Some cs;
     incidents := incidents d; rest := rest d |}.
End Doc.

(** ** Configuration ([src/config/constants.js]) *)

Definition API_BASE_URL : string := "https://www.cloudflarestatus.com/api/v2".

(** [ENDPOINTS.components] is [status.json] in this version of the file
    (another version has [components.json]); no property below depends on
    the URL. *)
Module ENDPOINTS.
Definition components : string := API_BASE_URL +:+ "/status.json".
Definition incidents : string := API_BASE_URL +:+ "/incidents/unresolved.json".
End ENDPOINTS.

Definition CACHE_TTL : nat := 60.

Definition ICN_KEYWORDS : list string := ["icn"; "seoul"; "korea"; "south korea"].

Module SLACK_CONFIG.
Definition webhookEnvKey : string := "SLACK_WEBHOOK_URL".
End SLACK_CONFIG.

(** ** Slack payloads ([src/notifications/slack.js]) *)

(** The blocks the formatter builds: a [header] block with plain text, a
    [divider], a [section] with mrkdwn text, and a [context] block holding
    one mrkdwn element. *)
Inductive Block :=
  | HeaderBlock (text : string)
  | DividerBlock
  | SectionBlock (text : string)
  | ContextBlock (text : string).

Module Payload.
Record t := make {
  blocks : list Block;
  text : string;
}.
End Payload.

(** ** Requests, responses and the event history *)

Inductive request :=
  | GET (url : string)
  | POST (url : string) (body : Payload.t).

Module Response.
Record t := make {
  status : nat;
  statusText : string;
  body : option Doc.t;
}.

(** [response.ok]: the status is in the range 200-299. *)
Definition ok (r : t) : bool := bool_decide (200 ≤ status r ≤ 299)%nat.

(** [response.json()]; [None] is a body that does not parse, and [Some d]
    a body that parses to an object of the data model above, whose
    components carry a name. *)
Definition json (r : t) : outcome Doc.t :=
  match body r with
  | Some d => Returned d
  | None => Thrown SyntaxError
  end.
End Response.

(** What a call of [fetch] settles to: it rejects (network failure) or
    resolves to a response, whatever its HTTP status. *)
Inductive fetch_outcome :=
  | Rejected (e : exn)
  | Responded (r : Response.t).

(** The observable events of a run, oldest first. *)
Inductive event :=
  | Fetched (rq : request)
  | Logged (label : string) (e : option exn).

Definition is_post (ev : event) : bool :=
  match ev with
  | Fetched (POST _ _) => true
  | _ => false
  end.

(** The host environment: the built-ins whose result depends on Unicode
    tables, the locale or the clock, and the network, which answers a
    request given the history so far. *)
Class Host := {
  toLowerCase : string → string;
  toLocaleString : string → string;
  toISOString_now : list event → string;
  network : list event → request → fetch_outcome;
}.

(** Computations of the worker: they extend the event history and either
    return or throw. *)
Definition M (A : Type) : Type := list event → outcome A * list event.

#[global] Instance M_ret : MRet M := λ A a h, (Returned a, h).
#[global] Instance M_bind : MBind M := λ A B f m h,
  match m h with
  | (Returned a, h') => f a h'
  | (Thrown e, h') => (Thrown e, h')
  end.

Definition throw {A} (e : exn) : M A := λ h, (Thrown e, h).
Definition lift {A} (o : outcome A) : M A := λ h, (o, h).

(** [try { body } catch (error) { handler }] *)
Definition try_catch {A} (body : M A) (handler : exn → M A) : M A := λ h,
  match body h with
  | (Returned a, h') => (Returned a, h')
  | (Thrown e, h') => handler e h'
  end.

(** [console.error(label, error)] *)
Definition console_error (label : string) (e : option exn) : M unit :=
  λ h, (Returned tt, h ++ [Logged label e]).

(** [forEach] over an array, the callback updating a state and possibly
    throwing: the loop stops at the first exception. *)
Fixpoint forEach {A St} (f : St → A → outcome St) (l : list A) (s : St) : outcome St :=
  match l with
  | [] => Returned s
  | x :: l' => s' ← f s x; forEach f l' s'
  end.

(** [forEach((x, index) => ...)] with a callback that does not throw;
    [i] is the index of the head of [l]. *)
Fixpoint forEach_index {A St} (f : St → A → nat → St) (i : nat) (l : list A) (s : St) : St :=
  match l with
  | [] => s
  | x :: l' => forEach_index f (S i) l' (f s x i)
  end.

Section Program.
Context `{Host}.

(** [await fetch(...)] *)
Definition fetch (rq : request) : M Response.t := λ h,
  match network h rq with
  | Rejected e => (Thrown e, h ++ [Fetched rq])
  | Responded r => (Returned r, h ++ [Fetched rq])
  end.

(** [new Date().toISOString()] *)
Definition now : M string := λ h, (Returned (toISOString_now h), h).

(** *** The API client *)

(** The callback of [filter] in [filterForICN]. *)
Definition isICN (keywords : list string) (component : Component.t) : bool :=
  let name := toLowerCase (Component.name component) in
  let description := toLowerCase (or_else (Component.description component) "") in
  existsb (λ keyword, includes name keyword || includes description keyword) keywords.

(** [filterForICN] on JSON values, the keyword list made a parameter.
    The round trip through [JSON.stringify] and [JSON.parse] returns
    the same JSON value, so it does not show here; the copy it makes is
    modelled in [filterForICN_store] below. *)
Definition filterForICN_with (keywords : list string) (data : Doc.t) : Doc.t :=
  let filteredData := data in
  match Doc.components filteredData with
  | Some components =>
      Doc.with_components filteredData (List.filter (isICN keywords) components)
  | None => filteredData
  end.

Definition filterForICN : Doc.t → Doc.t := filterForICN_with ICN_KEYWORDS.

(** The message of the error thrown on a response that is not ok. *)
Definition failure (what : string) (r : Response.t) : exn :=
  Error ("Failed to " +:+ what +:+ ": " +:+ pretty (Response.status r)
         +:+ " " +:+ Response.statusText r).

(** [{ ...statusData, components: componentsData.components || [] }] *)
Definition combine (statusData componentsData : Doc.t) : Doc.t :=
  Doc.with_components statusData (default [] (Doc.components componentsData)).

Definition fetchICNComponentsStatus_with (keywords : list string) : M Doc.t :=
  try_catch
    (componentsResponse ← fetch (GET ENDPOINTS.components);
     if negb (Response.ok componentsResponse)
     then throw (failure "fetch components data" componentsResponse)
     else
     statusResponse ← fetch (GET (API_BASE_URL +:+ "/status.json"));
     if negb (Response.ok statusResponse)
     then throw (failure "fetch status data" statusResponse)
     else
     componentsData ← lift (Response.json componentsResponse);
     statusData ← lift (Response.json statusResponse);
     let combinedData := combine statusData componentsData in
     mret (filterForICN_with keywords combinedData))
    (λ error,
       console_error "Error fetching ICN components status:" (Some error);;
       throw error).

Definition fetchICNComponentsStatus : M Doc.t :=
  fetchICNComponentsStatus_with ICN_KEYWORDS.

Definition fetchUnresolvedIncidents : M Doc.t :=
  try_catch
    (response ← fetch (GET ENDPOINTS.incidents);
     if negb (Response.ok response)
     then throw (failure "fetch incidents data" response)
     else lift (Response.json response))
    (λ error,
       console_error "Error fetching unresolved incidents:" (Some error);;
       throw error).

(** *** The Slack formatter ([src/notifications/slack.js]) *)

(** The glyph chosen for a component in [formatComponentsPayload]. *)
Definition componentEmoji (component : Component.t) : string :=
  let statusEmoji := "✅" in
  if bool_decide (Component.status component ≠ Some "operational")
  then (if bool_decide (Component.status component = Some "degraded_performance")
        then "⚠️" else "❌")
  else statusEmoji.

(** The callback of [data.components.forEach]: it pushes the line of one
    component.  Reading [replace] off a status that is [undefined] or
    [null] throws. *)
Definition pushComponent (blocks : list Block) (component : Component.t)
  : outcome (list Block) :=
  let statusEmoji := componentEmoji component in
  match Component.status component with
  | Some status =>
      Returned (blocks ++ [SectionBlock (statusEmoji +:+ " *" +:+ Component.name component
                                    +:+ "*: " +:+ replace status "_" " ")])
  | None => Thrown TypeError
  end.

Definition formatComponentsPayload (timestamp : string) (data : Doc.t)
  : outcome Payload.t :=
  let blocks := [HeaderBlock "🌐 Cloudflare ICN (Seoul) Status Update"; DividerBlock] in
  let blocks :=
    match Doc.status data with
    | Some status =>
        blocks ++ [SectionBlock ("*Overall Status:* "
                            +:+ or_else (Status.description status) "Unknown")]
    | None => blocks
    end in
  blocks ←
    match Doc.components data with
    | Some ((_ :: _) as components) =>
        forEach pushComponent components (blocks ++ [SectionBlock "*ICN Components:*"])
    | _ => Returned (blocks ++ [SectionBlock "_No ICN components found_"])
    end;
  let blocks := blocks ++ [ContextBlock ("Last updated: " +:+ timestamp)] in
  Returned {| Payload.blocks := blocks;
              Payload.text := "Cloudflare ICN (Seoul) Status Update" |}.

Definition getStatusEmoji (status : option string) : string :=
  if negb (truthy status) then "⚠️"
  else
    let status := toLowerCase (default "" status) in
    if bool_decide (status = "investigating") then "🔍"
    else if bool_decide (status = "identified") then "🔎"
    else if bool_decide (status = "monitoring") then "👀"
    else if bool_decide (status = "resolved") then "✅"
    else if bool_decide (status = "postmortem") then "📝"
    else "⚠️".

(** The callback of [updates.forEach]; [len] is [updates.length]. *)
Definition pushUpdate (len : nat) (blocks : list Block) (update : Update.t)
    (index : nat) : list Block :=
  let updateTime := toLocaleString (Update.created_at update) in
  let updateStatus :=
    if truthy (Update.status update)
    then "[" +:+ default "" (Update.status update) +:+ "]" else "" in
  blocks ++
    [SectionBlock ((if bool_decide (index = 0) then "*Latest Update:*"
               else "*Update " +:+ pretty (len - index) +:+ ":*")
              +:+ " " +:+ updateStatus +:+ nl +:+ Update.body update);
     ContextBlock ("Updated: " +:+ updateTime)].

(** The note pushed after the updates when some are not shown. *)
Definition moreUpdatesNote (n : nat) : Block :=
  ContextBlock ("_" +:+ pretty (n - 3) +:+ " more updates not shown_").

(** The callback of [data.incidents.forEach]. *)
Definition pushIncident (blocks : list Block) (incident : Incident.t) : list Block :=
  let impactText :=
    if truthy (Incident.impact incident)
    then "Impact: " +:+ default "" (Incident.impact incident) else "" in
  let monitoringText :=
    if Incident.monitoring incident then "🔍 Being monitored" else "" in
  let statusEmoji := getStatusEmoji (Incident.status incident) in
  let blocks := blocks ++
    [SectionBlock (statusEmoji +:+ " *" +:+ Incident.name incident +:+ "*" +:+ nl
              +:+ "*Status:* " +:+ or_else (Incident.status incident) "Unknown"
              +:+ (if truthy (Some impactText)
                   then nl +:+ "*" +:+ impactText +:+ "*" else "")
              +:+ (if truthy (Some monitoringText)
                   then nl +:+ monitoringText else ""))] in
  let blocks :=
    match Incident.incident_updates incident with
    | Some ((_ :: _) as incident_updates) =>
        let blocks := blocks ++ [SectionBlock "*Incident Timeline:*"] in
        let updates := take 3 incident_updates in
        let blocks := forEach_index (pushUpdate (length updates)) 0 updates blocks in
        if bool_decide (3 < length incident_updates)%nat
        then blocks ++ [moreUpdatesNote (length incident_updates)]
        else blocks
    | _ => blocks
    end in
  let blocks :=
    match Incident.components incident with
    | Some ((_ :: _) as components) =>
        blocks ++ [SectionBlock ("*Affected Components:* "
                            +:+ join ", " (map Component.name components))]
    | _ => blocks
    end in
  blocks ++ [DividerBlock].

Definition formatIncidentsPayload (timestamp : string) (data : Doc.t) : Payload.t :=
  let blocks := [HeaderBlock "🚨 Cloudflare Incident Alert"; DividerBlock] in
  let blocks :=
    match Doc.incidents data with
    | Some ((_ :: _) as incidents) => fold_left pushIncident incidents blocks
    | _ => blocks ++ [SectionBlock "_No active incidents reported_"]
    end in
  let blocks := blocks ++ [ContextBlock ("Last checked: " +:+ timestamp)] in
  {| Payload.blocks := blocks; Payload.text := "Cloudflare Incident Alert" |}.

Definition formatSlackPayload (timestamp : string) (data : Doc.t) (type : string)
  : outcome Payload.t :=
  if bool_decide (type = "components") then formatComponentsPayload timestamp data
  else if bool_decide (type = "incidents")
  then Returned (formatIncidentsPayload timestamp data)
  else Thrown (Error ("Unknown notification type: " +:+ type)).

(** [env] is the worker environment, an object read by key. *)
Definition sendSlackNotification (env : gmap string string) (data : Doc.t)
    (type : string) : M bool :=
  try_catch
    (let webhookUrl := env !! SLACK_CONFIG.webhookEnvKey in
     if negb (truthy webhookUrl)
     then console_error "Slack webhook URL not configured" None;; mret false
     else
     timestamp ← now;
     payload ← lift (formatSlackPayload timestamp data type);
     response ← fetch (POST (default "" webhookUrl) payload);
     if negb (Response.ok response)
     then throw (failure "send Slack notification" response)
     else mret true)
    (λ error,
       console_error "Error sending Slack notification:" (Some error);;
       mret false).
End Program.

(** ** The worker entry point

    The repository holds two versions of the entry point.  They compute
    [hasIssues] and check incidents alike, and differ in when the
    components notification is sent. *)

Module ComponentsReport.
Record t := make {
  status : string;
  message : string;
  hasIssues : option bool;
  data : Doc.t;
}.
End ComponentsReport.

Module IncidentsReport.
Record t := make {
  status : string;
  message : string;
  incidentsCount : nat;
  data : Doc.t;
}.
End IncidentsReport.

(** [componentsData.components && componentsData.components.some(...)]:
    [None] is [undefined], the value of [&&] when [components] is absent. *)
Definition hasIssues (componentsData : Doc.t) : option bool :=
  match Doc.components componentsData with
  | Some components =>
      Some (existsb (λ component,
                       bool_decide (Component.status component ≠ Some "operational"))
                    components)
  | None => None
  end.

Section Worker.
Context `{Host}.

Definition checkUnresolvedIncidents (env : gmap string string) : M IncidentsReport.t :=
  try_catch
    (incidentsData ← fetchUnresolvedIncidents;
     match Doc.incidents incidentsData with
     | Some ((_ :: _) as incidents) =>
         sendSlackNotification env incidentsData "incidents";; mret tt
     | _ => mret tt
     end;;
     mret {| IncidentsReport.status := "success";
             IncidentsReport.message := "Unresolved incidents checked";
             IncidentsReport.incidentsCount :=
               match Doc.incidents incidentsData with
               | Some incidents => length incidents
               | None => 0
               end;
             IncidentsReport.data := incidentsData |})
    (λ error,
       console_error "Error checking unresolved incidents:" (Some error);;
       throw error).
End Worker.

(** The version whose schedule checks components every six hours: the
    notification is sent when there are issues. *)
Module NotifyOnIssues.
Section Worker.
Context `{Host}.

Definition checkICNComponents (env : gmap string string) : M ComponentsReport.t :=
  try_catch
    (componentsData ← fetchICNComponentsStatus;
     let hasIssues := hasIssues componentsData in
     (if bool_decide (hasIssues = Some true)
      then sendSlackNotification env componentsData "components";; mret tt
      else mret tt);;
     mret {| ComponentsReport.status := "success";
             ComponentsReport.message := "ICN components status checked";
             ComponentsReport.hasIssues := hasIssues;
             ComponentsReport.data := componentsData |})
    (λ error,
       console_error "Error checking ICN components status:" (Some error);;
       throw error).

(** [scheduled]: the cron pattern decides which check runs. *)
Definition scheduled (cron : string) (env : gmap string string) : M unit :=
  if includes cron "*/6"
  then checkICNComponents env;; mret tt
  else checkUnresolvedIncidents env;; mret tt.
End Worker.
End NotifyOnIssues.

(** The version whose schedule runs both checks every hour: the components
    notification is always sent. *)
Module NotifyAlways.
Section Worker.
Context `{Host}.

Definition checkICNComponents (env : gmap string string) : M ComponentsReport.t :=
  try_catch
    (componentsData ← fetchICNComponentsStatus;
     let hasIssues := hasIssues componentsData in
     sendSlackNotification env componentsData "components";;
     mret {| ComponentsReport.status := "success";
             ComponentsReport.message := "ICN components status checked";
             ComponentsReport.hasIssues := hasIssues;
             ComponentsReport.data := componentsData |})
    (λ error,
       console_error "Error checking ICN components status:" (Some error);;
       throw error).

Definition scheduled (env : gmap string string) : M unit :=
  checkICNComponents env;;
  checkUnresolvedIncidents env;;
  mret tt.
End Worker.
End NotifyAlways.

(** ** The HTTP handler ([src/index.js], [fetch])

    The request is read through its method and the [pathname] of
    [new URL(request.url)]; the reply is the [Response] the handler
    builds, its JSON body kept as the value that is serialised. *)

(** [s.endsWith(k)] *)
Fixpoint endsWith (s k : string) : bool :=
  String.eqb s k ||
  match s with
  | EmptyString => false
  | String _ s' => endsWith s' k
  end.

Module Request.
Record t := make {
  method : string;
  pathname : string;
}.
End Request.

Inductive json_body :=
  | ComponentsJson (data : ComponentsReport.t)
  | IncidentsJson (data : IncidentsReport.t)
  | AllJson (status message : string) (components : ComponentsReport.t)
            (incidents : IncidentsReport.t)
  | StatusPageJson (status message : string) (endpoints : list (string * string))
  | ErrorJson (error : string) (message : option string).

Inductive reply_body :=
  | NoBody
  | TextBody (text : string)
  | JsonBody (value : json_body).

Module Reply.
Record t := make {
  status : nat;
  headers : gmap string string;
  body : reply_body;
}.
End Reply.

(** [error.message]; [None] stands for the text the engine gives a
    [TypeError] or a [SyntaxError]. *)
Definition exn_message (e : exn) : option string :=
  match e with
  | Error message => Some message
  | _ => None
  end.

Definition corsHeaders : gmap string string :=
  {[ "Access-Control-Allow-Origin" := "*";
     "Access-Control-Allow-Methods" := "GET, OPTIONS";
     "Access-Control-Allow-Headers" := "Content-Type" ]}.

(** [new Response(JSON.stringify(value), { status, headers: { ...corsHeaders,
    'Content-Type': 'application/json' } })] *)
Definition json_reply (status : nat) (value : json_body) : Reply.t :=
  {| Reply.status := status;
     Reply.headers := <["Content-Type" := "application/json"]> corsHeaders;
     Reply.body := JsonBody value |}.

Definition statusPage : json_body :=
  StatusPageJson "ok" "Cloudflare Status Monitor is running"
    [("checkComponents", "/check/components"); ("checkIncidents", "/check/incidents")].

(** The handler of the version that notifies on issues. *)
Module OnIssuesHandler.
Section Handler.
Context `{Host}.

Definition fetch (request : Request.t) (env : gmap string string) : M Reply.t :=
  let path := toLowerCase (Request.pathname request) in
  if bool_decide (Request.method request = "OPTIONS")
  then mret {| Reply.status := 200; Reply.headers := corsHeaders; Reply.body := NoBody |}
  else if bool_decide (Request.method request ≠ "GET")
  then mret {| Reply.status := 405;
               Reply.headers := <["Content-Type" := "text/plain"]> corsHeaders;
               Reply.body := TextBody "Method not allowed" |}
  else
  try_catch
    (if endsWith path "/check/components"
     then data ← NotifyOnIssues.checkICNComponents env;
          mret (json_reply 200 (ComponentsJson data))
     else if endsWith path "/check/incidents"
     then data ← checkUnresolvedIncidents env;
          mret (json_reply 200 (IncidentsJson data))
     else mret (json_reply 200 statusPage))
    (λ error,
       console_error "Error processing request:" (Some error);;
       mret (json_reply 500 (ErrorJson "Failed to process request" (exn_message error)))).
End Handler.
End OnIssuesHandler.

(** The handler of the version that always notifies: it has the route
    [/check/all] too. *)
Module AlwaysHandler.
Section Handler.
Context `{Host}.

Definition fetch (request : Request.t) (env : gmap string string) : M Reply.t :=
  let path := toLowerCase (Request.pathname request) in
  if bool_decide (Request.method request = "OPTIONS")
  then mret {| Reply.status := 200; Reply.headers := corsHeaders; Reply.body := NoBody |}
  else if bool_decide (Request.method request ≠ "GET")
  then mret {| Reply.status := 405;
               Reply.headers := <["Content-Type" := "text/plain"]> corsHeaders;
               Reply.body := TextBody "Method not allowed" |}
  else
  try_catch
    (if endsWith path "/check/components"
     then data ← NotifyAlways.checkICNComponents env;
          mret (json_reply 200 (ComponentsJson data))
     else if endsWith path "/check/incidents"
     then data ← checkUnresolvedIncidents env;
          mret (json_reply 200 (IncidentsJson data))
     else if endsWith path "/check/all"
     then componentsData ← NotifyAlways.checkICNComponents env;
          incidentsData ← checkUnresolvedIncidents env;
          mret (json_reply 200
                  (AllJson "success" "All checks completed and notifications sent"
                     componentsData incidentsData))
     else mret (json_reply 200 statusPage))
    (λ error,
       console_error "Error processing request:" (Some error);;
       mret (json_reply 500 (ErrorJson "Failed to process request" (exn_message error)))).
End Handler.
End AlwaysHandler.

(** ** [filterForICN] on the store

    Objects and arrays are cells of a store and are passed by reference, so
    that the copy [filterForICN] makes and the assignment to
    [filteredData.components] can be told apart from a change of the
    input.  The [status] object, the incidents and the other properties,
    which [filterForICN] neither reads nor writes, are kept in the
    document's cell. *)

Abbreviation loc := nat (only parsing).

Inductive cell :=
  | ObjDoc (status : option Status.t) (components : option loc)
           (incidents : option (list Incident.t)) (rest : list (string * string))
  | Arr (elements : list loc)
  | ObjComponent (component : Component.t).

(** A fresh cell. *)
Definition alloc (c : cell) (σ : gmap loc cell) : loc * gmap loc cell :=
  let l := fresh (dom σ) in (l, <[l := c]> σ).

(** The component objects an array of references holds. *)
Fixpoint read_elements (σ : gmap loc cell) (elements : list loc)
  : option (list Component.t) :=
  match elements with
  | [] => Some []
  | e :: elements' =>
      match σ !! e with
      | Some (ObjComponent c) => cs ← read_elements σ elements'; Some (c :: cs)
      | _ => None
      end
  end.

(** [JSON.stringify(data)], the JSON text being the JSON value it denotes.
    [None]: [l] is not a document of the store. *)
Definition JSON_stringify (σ : gmap loc cell) (l : loc) : option Doc.t :=
  match σ !! l with
  | Some (ObjDoc status None incidents rest) =>
      Some (Doc.make status None incidents rest)
  | Some (ObjDoc status (Some a) incidents rest) =>
      match σ !! a with
      | Some (Arr elements) =>
          cs ← read_elements σ elements;
          Some (Doc.make status (Some cs) incidents rest)
      | _ => None
      end
  | _ => None
  end.

Fixpoint alloc_components (cs : list Component.t) (σ : gmap loc cell)
  : list loc * gmap loc cell :=
  match cs with
  | [] => ([], σ)
  | c :: cs' =>
      let '(l, σ) := alloc (ObjComponent c) σ in
      let '(ls, σ) := alloc_components cs' σ in
      (l :: ls, σ)
  end.

(** [JSON.parse(text)]: every object and array of the result is new. *)
Definition JSON_parse (text : Doc.t) (σ : gmap loc cell) : loc * gmap loc cell :=
  match Doc.components text with
  | None => alloc (ObjDoc (Doc.status text) None (Doc.incidents text) (Doc.rest text)) σ
  | Some cs =>
      let '(ls, σ) := alloc_components cs σ in
      let '(a, σ) := alloc (Arr ls) σ in
      alloc (ObjDoc (Doc.status text) (Some a) (Doc.incidents text) (Doc.rest text)) σ
  end.

(** The references [elements.filter(p)] keeps, [p] reading each object. *)
Fixpoint filter_elements (p : Component.t → bool) (σ : gmap loc cell)
    (elements : list loc) : option (list loc) :=
  match elements with
  | [] => Some []
  | e :: elements' =>
      match σ !! e with
      | Some (ObjComponent c) =>
          kept ← filter_elements p σ elements';
          Some (if p c then e :: kept else kept)
      | _ => None
      end
  end.

Section Store.
Context `{Host}.

(** [filterForICN(data)] with [data] the reference [l]; it returns the
    reference of [filteredData] and the store it leaves. *)
Definition filterForICN_store (keywords : list string) (l : loc) (σ : gmap loc cell)
  : option (loc * gmap loc cell) :=
  text ← JSON_stringify σ l;
  let '(filteredData, σ) := JSON_parse text σ in
  match σ !! filteredData with
  | Some (ObjDoc status (Some a) incidents rest) =>
      match σ !! a with
      | Some (Arr elements) =>
          kept ← filter_elements (isICN keywords) σ elements;
          let '(a', σ) := alloc (Arr kept) σ in
          Some (filteredData, <[filteredData := ObjDoc status (Some a') incidents rest]> σ)
      | _ => None
      end
  | Some (ObjDoc status None incidents rest) => Some (filteredData, σ)
  | _ => None
  end.
End Store.

(** ** A host to run the model on

    Case mapping restricted to the ASCII letters, timestamps left as they
    are, a fixed clock, and the network given as a parameter. *)

Definition ascii_toLowerCase (c : Ascii.ascii) : Ascii.ascii :=
  let n := Ascii.nat_of_ascii c in
  if bool_decide (65 ≤ n ≤ 90)%nat then Ascii.ascii_of_nat (n + 32) else c.

Fixpoint string_toLowerCase (s : string) : string :=
  match s with
  | EmptyString => EmptyString
  | String c s' => String (ascii_toLowerCase c) (string_toLowerCase s')
  end.

Definition ascii_host (net : list event → request → fetch_outcome) : Host :=
  {| toLowerCase := string_toLowerCase;
     toLocaleString := λ created_at, created_at;
     toISOString_now := λ _, "2024-05-01T00:00:00.000Z";
     network := net |}.

(** A network on which every request is answered 503, and the host on it. *)
Definition unavailable : list event → request → fetch_outcome :=
  λ _ _, Responded {| Response.status := 503;
                      Response.statusText := "Service Unavailable";
                      Response.body := None |}.

Definition offline_host : Host := ascii_host unavailable.

Definition ok_response (d : option Doc.t) : Response.t :=
  {| Response.status := 200; Response.statusText := "OK"; Response.body := d |}.

(** A network on which the first request is answered 200 with [d] and
    every later one 503. *)
Definition up_once (d : Doc.t) : list event → request → fetch_outcome :=
  λ h rq,
    match h with
    | [] => Responded (ok_response (Some d))
    | _ => unavailable h rq
    end.

(** A network on which every request is answered 200: the first [GET] of a
    run with [first], the later ones with [later], a [POST] with an empty
    body. *)
Definition online (first later : Doc.t) : list event → request → fetch_outcome :=
  λ h rq,
    match rq with
    | GET _ =>
        match h with
        | [] => Responded (ok_response (Some first))
        | _ => Responded (ok_response (Some later))
        end
    | POST _ _ => Responded (ok_response None)
    end.

(** A network on which every request is answered 200 with a body that
    does not parse. *)
Definition garbled : list event → request → fetch_outcome :=
  λ _ _, Responded (ok_response None).

(** A worker environment holding the webhook secret. *)
Definition configured : gmap string string :=
  {[ SLACK_CONFIG.webhookEnvKey := "https://hooks.slack.example/T000" ]}.

(** ** Vocabulary of the specification *)

(** [k] occurs in [s]. *)
Definition Substring (k s : string) : Prop := ∃ a b, s = a +:+ k +:+ b.

(** [kept] holds the elements of [l] that satisfy [P], each as often as in
    [l] and in the order of [l]. *)
Inductive Selected {A} (P : A → Prop) : list A → list A → Prop :=
  | Selected_nil : Selected P [] []
  | Selected_keep x l kept : P x → Selected P l kept → Selected P (x :: l) (x :: kept)
  | Selected_drop x l kept : ¬ P x → Selected P l kept → Selected P (x :: l) kept.

(** A component matches the keyword set [K]: its lowercased name or its
    lowercased description, a missing description being the empty string,
    contains a keyword of [K]. *)
Definition Matches `{Host} (K : list string) (c : Component.t) : Prop :=
  ∃ k, k ∈ K ∧
       (Substring k (toLowerCase (Component.name c)) ∨
        Substring k (toLowerCase (default "" (Component.description c)))).

(** The history [h'] extends [h] by events none of which is a request to
    the webhook. *)
Definition no_post_since (h h' : list event) : Prop :=
  ∃ new, h' = h ++ new ∧ forallb (λ ev, negb (is_post ev)) new = true.

(** The token [s] with every underscore replaced by a space. *)
Fixpoint spaced (s : string) : string :=
  match s with
  | EmptyString => EmptyString
  | String c s' =>
      String (if Ascii.eqb c "_"%char then " "%char else c) (spaced s')
  end.

(** The number of underscores of [s]. *)
Fixpoint underscores (s : string) : nat :=
  match s with
  | EmptyString => 0
  | String c s' => (if Ascii.eqb c "_"%char then 1 else 0) + underscores s'
  end.

(** The blocks [pushIncident] adds for one incident, and the two blocks
    [pushUpdate] adds for the update at [index] of [len] shown updates. *)
Definition incidentBlocks `{Host} (incident : Incident.t) : list Block :=
  pushIncident [] incident.

Definition updateEntry `{Host} (len index : nat) (update : Update.t) : list Block :=
  pushUpdate len [] update index.

(** The context block that closes an update entry. *)
Definition is_update_time (b : Block) : bool :=
  match b with
  | ContextBlock text => String.prefix "Updated: " text
  | _ => false
  end.

(** The entries of the updates [us], the first of them at [index]. *)
Fixpoint updateEntries `{Host} (len index : nat) (us : list Update.t) : list Block :=
  match us with
  | [] => []
  | update :: us' => updateEntry len index update ++ updateEntries len (S index) us'
  end.

(** The number of update entries among the blocks [l]. *)
Definition update_entries (l : list Block) : nat :=
  length (List.filter is_update_time l).

(** The text of the first block of an incident, and the block that lists
    its affected components, present when it has some. *)
Definition incidentHeadline `{Host} (incident : Incident.t) : string :=
  getStatusEmoji (Incident.status incident) +:+ " *" +:+ Incident.name incident
  +:+ "*" +:+ nl +:+ "*Status:* " +:+ or_else (Incident.status incident) "Unknown"
  +:+ (if truthy (Incident.impact incident)
       then nl +:+ "*Impact: " +:+ default "" (Incident.impact incident) +:+ "*"
       else "")
  +:+ (if Incident.monitoring incident then nl +:+ "🔍 Being monitored" else "").

Definition affectedComponents (incident : Incident.t) : list Block :=
  match Incident.components incident with
  | Some ((_ :: _) as components) =>
      [SectionBlock ("*Affected Components:* "
                     +:+ join ", " (map Component.name components))]
  | _ => []
  end.

(** The blocks of the timeline of an incident whose updates are [us]: a
    title, the entries of the first three updates, and a note counting the
    updates that are not shown. *)
Definition timeline `{Host} (us : list Update.t) : list Block :=
  match us with
  | [] => []
  | _ =>
      let shown := take 3 us in
      [SectionBlock "*Incident Timeline:*"]
      ++ updateEntries (length shown) 0 shown
      ++ (if bool_decide (3 < length us)%nat
          then [ContextBlock ("_" +:+ pretty (length us - 3) +:+ " more updates not shown_")]
          else [])
  end.

(** The cells a document of the store is made of: the document, its
    components array and the component objects of the array. *)
Definition footprint (σ : gmap loc cell) (l : loc) : list loc :=
  match σ !! l with
  | Some (ObjDoc _ (Some a) _ _) =>
      l :: a :: match σ !! a with
                | Some (Arr elements) => elements
                | _ => []
                end
  | _ => [l]
  end.

(** The number of requests to the webhook among the events [l]. *)
Definition posts (l : list event) : nat := length (List.filter is_post l).


(** Every run of [m] extends the history by events that satisfy [T]. *)
Definition traces {A} (T : list event → Prop) (m : M A) : Prop :=
  ∀ h, ∃ new, (m h).2 = h ++ new ∧ T new.

(** The requests the worker may make with the environment [env]: a [GET]
    of the status API, or a [POST] to the webhook URL of [env]. *)
Definition permitted (env : gmap string string) (ev : event) : Prop :=
  match ev with
  | Fetched (GET url) => ∃ path, url = API_BASE_URL +:+ path
  | Fetched (POST url _) => env !! SLACK_CONFIG.webhookEnvKey = Some url ∧ url ≠ ""
  | Logged _ _ => True
  end.

(** The reports of the checks for the fetched document [d]. *)
Definition componentsReport (d : Doc.t) : ComponentsReport.t :=
  {| ComponentsReport.status := "success";
     ComponentsReport.message := "ICN components status checked";
     ComponentsReport.hasIssues := hasIssues d;
     ComponentsReport.data := d |}.

Definition incidentsReport (d : Doc.t) : IncidentsReport.t :=
  {| IncidentsReport.status := "success";
     IncidentsReport.message := "Unresolved incidents checked";
     IncidentsReport.incidentsCount := length (default [] (Doc.incidents d));
     IncidentsReport.data := d |}.

(** The events [new] are permitted requests and logs, and hold no request
    to the webhook, or at most [n]. *)
Definition read_only (env : gmap string string) (new : list event) : Prop :=
  Forall (permitted env) new ∧ posts new = 0.

Definition posts_at_most (n : nat) (env : gmap string string) (new : list event) : Prop :=
  Forall (permitted env) new ∧ (posts new ≤ n)%nat.

(** The line of the components message for the component [c], and the
    line of the overall status, present when the document has a [status]. *)
Definition componentLine (c : Component.t) : Block :=
  SectionBlock (componentEmoji c +:+ " *" +:+ Component.name c +:+ "*: "
                +:+ replace (default "" (Component.status c)) "_" " ").

Definition overallLine (data : Doc.t) : list Block :=
  match Doc.status data with
  | Some status =>
      [SectionBlock ("*Overall Status:* " +:+ default "Unknown"
                       (match Status.description status with
                        | Some "" => None
                        | description => description
                        end))]
  | None => []
  end.

(** A reply of the handler: one of its three statuses, with the CORS
    headers. *)
Definition well_formed_reply (reply : Reply.t) : Prop :=
  corsHeaders ⊆ Reply.headers reply ∧ Reply.status reply ∈ [200; 405; 500].

(** The last character of a string. *)
Fixpoint last_char (s : string) : option Ascii.ascii :=
  match s with
  | EmptyString => None
  | String c EmptyString => Some c
  | String _ s' => last_char s'
  end.

(** ** Sample data *)

Definition seoul_node : Component.t :=
  {| Component.name := "Seoul Node"; Component.description := None;
     Component.status := Some "degraded_performance" |}.

Definition tokyo_cache : Component.t :=
  {| Component.name := "Tokyo Cache"; Component.description := None;
     Component.status := Some "major_outage" |}.

Definition icn_load_balancer : Component.t :=
  {| Component.name := "ICN Load Balancer"; Component.description := None;
     Component.status := Some "operational" |}.

Definition under_maintenance_window : Component.t :=
  {| Component.name := "Seoul Node"; Component.description := None;
     Component.status := Some "under_maintenance_window" |}.

Definition no_status : Component.t :=
  {| Component.name := "Seoul Node"; Component.description := None;
     Component.status := None |}.

Definition all_operational : Doc.t :=
  {| Doc.status := Some {| Status.indicator := None;
                           Status.description := Some "All Systems Operational" |};
     Doc.components := None; Doc.incidents := None; Doc.rest := [] |}.

Definition listing (cs : list Component.t) : Doc.t :=
  {| Doc.status := None; Doc.components := Some cs;
     Doc.incidents := None; Doc.rest := [] |}.

Definition update (n : nat) : Update.t :=
  {| Update.status := Some "investigating";
     Update.body := "Update number " +:+ pretty n;
     Update.created_at := "2024-05-01T0" +:+ pretty n +:+ ":00:00.000Z" |}.

(** An incident with five updates and no status. *)
Definition outage : Incident.t :=
  {| Incident.name := "Network outage in ICN"; Incident.status := None;
     Incident.impact := Some "major"; Incident.monitoring := false;
     Incident.incident_updates := Some [update 5; update 4; update 3; update 2; update 1];
     Incident.components := Some [seoul_node] |}.

Definition unresolved (incidents : list Incident.t) : Doc.t :=
  {| Doc.status := None; Doc.components := None;
     Doc.incidents := Some incidents; Doc.rest := [] |}.

(** A store holding the document of [tokyo_cache] and [seoul_node] at 0. *)
Definition sample_store : gmap loc cell :=
  {[ 0 := ObjDoc None (Some 1) None [];
     1 := Arr [2; 3];
     2 := ObjComponent tokyo_cache;
     3 := ObjComponent seoul_node ]}.

(** * Properties *)

(** ** Strings *)

Lemma append_cons (c : Ascii.ascii) (s t : string) :
  String c s +:+ t = String c (s +:+ t).
Proof. reflexivity. Qed.

Lemma prefix_spec (k s : string) :
  String.prefix k s = true ↔ ∃ b, s = k +:+ b.
Proof.
  revert s. induction k as [|c k IH]; intros s; simpl.
  - split; [intros _; by exists s | by destruct s].
  - setoid_rewrite append_cons. destruct s as [|c' s]; simpl.
    + split; [done | by intros [b Hb]].
    + destruct (Ascii.ascii_dec c c') as [->|Hne].
      * rewrite IH. split; intros [b Hb]; exists b; congruence.
      * split; [done | intros [b Hb]; congruence].
Qed.

Lemma includes_unfold (s k : string) :
  includes s k =
  String.prefix k s ||
  match s with
  | EmptyString => false
  | String _ s' => includes s' k
  end.
Proof. by destruct s. Qed.

Lemma includes_spec (s k : string) :
  includes s k = true ↔ Substring k s.
Proof.
  split.
  - induction s as [|c s IH]; rewrite includes_unfold, orb_true_iff.
    + intros [Hp|?]; [|done].
      apply prefix_spec in Hp as [b Hb]. by exists "", b.
    + intros [Hp|Hi].
      * apply prefix_spec in Hp as [b Hb]. by exists "", b.
      * destruct (IH Hi) as (a & b & ->). by exists (String c a), b.
  - intros (a & b & ->). induction a as [|c a IH];
      rewrite includes_unfold, orb_true_iff.
    + left. apply prefix_spec. by exists b.
    + right. by rewrite append_cons.
Qed.

Lemma or_else_empty (o : option string) : or_else o "" = default "" o.
Proof. destruct o as [s|]; simpl; [|done]. by destruct (String.eqb_spec s ""). Qed.

(** ** Computations *)

Ltac unfold_M :=
  unfold try_catch, throw, lift, console_error, fetch, now,
    mbind, M_bind, mret, M_ret.

Lemma bind_thrown {A B} (m : M A) (f : A → M B) (h h1 : list event) (e : exn) :
  m h = (Thrown e, h1) → (m ≫= f) h = (Thrown e, h1).
Proof. intros Hm. unfold mbind, M_bind. by rewrite Hm. Qed.

Lemma try_catch_thrown {A} (body : M A) (handler : exn → M A)
    (h h1 : list event) (e : exn) :
  body h = (Thrown e, h1) → try_catch body handler h = handler e h1.
Proof. intros Hm. unfold try_catch. by rewrite Hm. Qed.

Lemma bind_inv_returned {A B} (m : M A) (f : A → M B) (h h' : list event) (b : B) :
  (m ≫= f) h = (Returned b, h') →
  ∃ a h1, m h = (Returned a, h1) ∧ f a h1 = (Returned b, h').
Proof.
  unfold mbind, M_bind. destruct (m h) as [[a|e] h1]; [|done]. eauto.
Qed.

(** ** The relevance filter *)

Section Filter.
Context `{Host}.

Lemma isICN_spec (K : list string) (c : Component.t) :
  isICN K c = true ↔ Matches K c.
Proof.
  unfold isICN, Matches. rewrite existsb_exists, or_else_empty.
  split.
  - intros (k & Hin & Hk). exists k. rewrite list_elem_of_In. split; [done|].
    by rewrite orb_true_iff, !includes_spec in Hk.
  - intros (k & Hin & Hk). exists k. rewrite <- list_elem_of_In. split; [done|].
    by rewrite orb_true_iff, !includes_spec.
Qed.

Lemma filter_Selected (K : list string) (cs : list Component.t) :
  Selected (Matches K) cs (List.filter (isICN K) cs).
Proof.
  induction cs as [|c cs IH]; simpl; [constructor|].
  destruct (isICN K c) eqn:E.
  - apply Selected_keep; [by apply isICN_spec | done].
  - apply Selected_drop; [|done].
    rewrite <- isICN_spec. by rewrite E.
Qed.
End Filter.

Lemma Selected_sublist {A} (P : A → Prop) (l kept : list A) :
  Selected P l kept → kept `sublist_of` l.
Proof. induction 1; by constructor. Qed.

Lemma Selected_elem_of {A} (P : A → Prop) (l kept : list A) :
  Selected P l kept → ∀ x, x ∈ kept ↔ x ∈ l ∧ P x.
Proof.
  induction 1 as [|x l kept HP _ IH|x l kept HP _ IH]; intros y.
  - rewrite elem_of_nil. tauto.
  - rewrite !elem_of_cons, IH. split; [|tauto].
    intros [->|[??]]; tauto.
  - rewrite elem_of_cons, IH. split; [tauto|].
    intros [[->|?] ?]; tauto.
Qed.

Lemma Selected_functional {A} (P : A → Prop) (l k1 k2 : list A) :
  Selected P l k1 → Selected P l k2 → k1 = k2.
Proof.
  intros H1. revert k2.
  induction H1; intros k2 H2; inversion H2; subst; try done; f_equal; auto.
Qed.

(** C1. For every components list [cs] and keyword set [K], the filter
    returns exactly the components of [cs] whose lowercased name or
    lowercased description (a missing description being empty) contains a
    keyword of [K], in their original order: the result is the one list
    selected from [cs] by the match, a sublist of [cs] with the matching
    components as members; for an empty [K] nothing is kept.
    [filterForICN] is the filter at the configured keywords. *)
Theorem filterForICN_exact `{Host} (K : list string) (data : Doc.t)
    (cs : list Component.t) :
  Doc.components data = Some cs →
  filterForICN = filterForICN_with ICN_KEYWORDS ∧
  ∃ kept, Doc.components (filterForICN_with K data) = Some kept
    ∧ Selected (Matches K) cs kept
    ∧ (∀ kept', Selected (Matches K) cs kept' → kept' = kept)
    ∧ kept `sublist_of` cs
    ∧ (∀ c, c ∈ kept ↔ c ∈ cs ∧ Matches K c)
    ∧ (K = [] → kept = []).
Proof.
  intros Hcs. split; [done|].
  exists (List.filter (isICN K) cs).
  pose proof (filter_Selected K cs) as Hsel.
  split; [by unfold filterForICN_with; rewrite Hcs|].
  split; [done|].
  split; [intros kept' Hsel'; by eapply Selected_functional|].
  split; [by eapply Selected_sublist|].
  split; [by apply Selected_elem_of|].
  intros ->. clear. by induction cs.
Qed.

Lemma filterForICN_exact_witness :
  filterForICN (H:=offline_host) = filterForICN_with (H:=offline_host) ICN_KEYWORDS ∧
  ∃ kept,
    Doc.components (filterForICN_with (H:=offline_host) ["seoul"]
                      (listing [tokyo_cache; seoul_node])) = Some kept
    ∧ Selected (Matches (H:=offline_host) ["seoul"]) [tokyo_cache; seoul_node] kept
    ∧ (∀ kept',
         Selected (Matches (H:=offline_host) ["seoul"]) [tokyo_cache; seoul_node] kept' →
         kept' = kept)
    ∧ kept `sublist_of` [tokyo_cache; seoul_node]
    ∧ (∀ c, c ∈ kept ↔
            c ∈ [tokyo_cache; seoul_node] ∧ Matches (H:=offline_host) ["seoul"] c)
    ∧ (["seoul"] = [] → kept = []).
Proof.
  apply (filterForICN_exact (H:=offline_host) ["seoul"]
           (listing [tokyo_cache; seoul_node]) [tokyo_cache; seoul_node]).
  reflexivity.
Defined.

(** ** The issue classifier *)

(** The report of the components check, in both versions of the entry
    point, holds the snapshot that was fetched and [hasIssues] of it. *)
Lemma checkICNComponents_report `{Host} (env : gmap string string)
    (h h' : list event) (r : ComponentsReport.t) :
  NotifyOnIssues.checkICNComponents env h = (Returned r, h')
  ∨ NotifyAlways.checkICNComponents env h = (Returned r, h') →
  ComponentsReport.hasIssues r = hasIssues (ComponentsReport.data r)
  ∧ ∃ h1, fetchICNComponentsStatus h = (Returned (ComponentsReport.data r), h1).
Proof.
  unfold NotifyOnIssues.checkICNComponents, NotifyAlways.checkICNComponents.
  intros [Hrun|Hrun]; unfold try_catch in Hrun;
    match type of Hrun with
    | (let (_, _) := ?body h in _) = _ =>
        destruct (body h) as [[r0|e] h0] eqn:Hbody
    end; try done;
    injection Hrun as -> ->;
    apply bind_inv_returned in Hbody as (data & h1 & Hfetch & Hrest);
    apply bind_inv_returned in Hrest as (u & h2 & _ & Hret);
    injection Hret as <- _; eauto.
Qed.

(** C2. For every components list, [hasIssues] is true if and only if some
    component's status is not exactly ["operational"] (any other token
    counts), and it is false for the empty list.  It is the value the
    components check reports for the snapshot it fetched. *)
Theorem hasIssues_spec (componentsData : Doc.t) (cs : list Component.t) :
  Doc.components componentsData = Some cs →
  (hasIssues componentsData = Some true ↔
     ∃ c, c ∈ cs ∧ Component.status c ≠ Some "operational")
  ∧ (hasIssues componentsData = Some false ↔
     ∀ c, c ∈ cs → Component.status c = Some "operational")
  ∧ (cs = [] → hasIssues componentsData = Some false)
  ∧ (∀ (H : Host) env h h' r,
       NotifyOnIssues.checkICNComponents env h = (Returned r, h')
       ∨ NotifyAlways.checkICNComponents env h = (Returned r, h') →
       ComponentsReport.hasIssues r = hasIssues (ComponentsReport.data r)).
Proof.
  intros Hcs.
  cut ((hasIssues componentsData = Some true ↔
          ∃ c, c ∈ cs ∧ Component.status c ≠ Some "operational")
       ∧ (hasIssues componentsData = Some false ↔
          ∀ c, c ∈ cs → Component.status c = Some "operational")
       ∧ (cs = [] → hasIssues componentsData = Some false)).
  { intros (H1 & H2 & H3). repeat (split; [done|]).
    intros H env h h' r Hrun. by eapply checkICNComponents_report. }
  unfold hasIssues. rewrite Hcs.
  set (p := λ c : Component.t,
              bool_decide (Component.status c ≠ Some "operational")).
  assert (Htrue : existsb p cs = true ↔
            ∃ c, c ∈ cs ∧ Component.status c ≠ Some "operational").
  { rewrite existsb_exists. unfold p.
    split; intros (c & Hin & Hc); exists c.
    - apply bool_decide_eq_true in Hc. by rewrite list_elem_of_In.
    - rewrite <- list_elem_of_In. by rewrite bool_decide_eq_true. }
  split; [|split].
  - rewrite <- Htrue. split; [by intros [= ->] | by intros ->].
  - split.
    + intros [= Hf] c Hin.
      destruct (decide (Component.status c = Some "operational")) as [|Hne]; [done|].
      assert (existsb p cs = true) as Ht by (apply Htrue; eauto).
      congruence.
    + intros Hall. f_equal. apply not_true_is_false. rewrite Htrue.
      intros (c & Hin & Hne). by apply Hne, Hall.
  - by intros ->.
Qed.

Lemma hasIssues_spec_witness :
  (hasIssues (listing [seoul_node]) = Some true ↔
     ∃ c, c ∈ [seoul_node] ∧ Component.status c ≠ Some "operational")
  ∧ (hasIssues (listing [seoul_node]) = Some false ↔
     ∀ c, c ∈ [seoul_node] → Component.status c = Some "operational")
  ∧ ([seoul_node] = [] → hasIssues (listing [seoul_node]) = Some false)
  ∧ (∀ (H : Host) env h h' r,
       NotifyOnIssues.checkICNComponents env h = (Returned r, h')
       ∨ NotifyAlways.checkICNComponents env h = (Returned r, h') →
       ComponentsReport.hasIssues r = hasIssues (ComponentsReport.data r)).
Proof. apply (hasIssues_spec (listing [seoul_node]) [seoul_node]). reflexivity. Defined.

(** ** Upstream failures *)

Lemma no_post_since_intro (h : list event) (new : list event) (h' : list event) :
  h' = h ++ new → forallb (λ ev, negb (is_post ev)) new = true →
  no_post_since h h'.
Proof. intros -> Hnew. by exists new. Qed.

Lemma Response_ok_true (r : Response.t) :
  Response.ok r = true ↔ (200 ≤ Response.status r ≤ 299)%nat.
Proof. apply bool_decide_eq_true. Qed.

Lemma Response_ok_false (r : Response.t) :
  Response.ok r = false ↔ ¬ (200 ≤ Response.status r ≤ 299)%nat.
Proof. apply bool_decide_eq_false. Qed.

Section Upstream.
Context `{Host}.

Lemma fetchICNComponentsStatus_first_fails (h : list event) (r : Response.t) :
  network h (GET ENDPOINTS.components) = Responded r →
  Response.ok r = false →
  fetchICNComponentsStatus h =
    (Thrown (failure "fetch components data" r),
     h ++ [Fetched (GET ENDPOINTS.components);
           Logged "Error fetching ICN components status:"
             (Some (failure "fetch components data" r))]).
Proof.
  intros Hnet Hok.
  unfold fetchICNComponentsStatus, fetchICNComponentsStatus_with. unfold_M.
  rewrite Hnet, Hok. simpl. by rewrite <- app_assoc.
Qed.

Lemma fetchICNComponentsStatus_second_fails (h : list event) (r1 r2 : Response.t) :
  network h (GET ENDPOINTS.components) = Responded r1 →
  Response.ok r1 = true →
  network (h ++ [Fetched (GET ENDPOINTS.components)])
    (GET (API_BASE_URL +:+ "/status.json")) = Responded r2 →
  Response.ok r2 = false →
  fetchICNComponentsStatus h =
    (Thrown (failure "fetch status data" r2),
     h ++ [Fetched (GET ENDPOINTS.components);
           Fetched (GET (API_BASE_URL +:+ "/status.json"));
           Logged "Error fetching ICN components status:"
             (Some (failure "fetch status data" r2))]).
Proof.
  intros Hnet1 Hok1 Hnet2 Hok2.
  unfold fetchICNComponentsStatus, fetchICNComponentsStatus_with. unfold_M.
  rewrite Hnet1, Hok1. simpl. rewrite Hnet2, Hok2. simpl.
  by rewrite <- !app_assoc.
Qed.

Lemma fetchUnresolvedIncidents_fails (h : list event) (r : Response.t) :
  network h (GET ENDPOINTS.incidents) = Responded r →
  Response.ok r = false →
  fetchUnresolvedIncidents h =
    (Thrown (failure "fetch incidents data" r),
     h ++ [Fetched (GET ENDPOINTS.incidents);
           Logged "Error fetching unresolved incidents:"
             (Some (failure "fetch incidents data" r))]).
Proof.
  intros Hnet Hok. unfold fetchUnresolvedIncidents. unfold_M.
  rewrite Hnet, Hok. simpl. by rewrite <- app_assoc.
Qed.

(** When the fetch of the snapshot throws, both versions of the
    components check log the error and throw it again. *)
Lemma checkICNComponents_rethrows (env : gmap string string) (h h1 : list event)
    (e : exn) :
  fetchICNComponentsStatus h = (Thrown e, h1) →
  NotifyOnIssues.checkICNComponents env h =
    (Thrown e, h1 ++ [Logged "Error checking ICN components status:" (Some e)])
  ∧ NotifyAlways.checkICNComponents env h =
    (Thrown e, h1 ++ [Logged "Error checking ICN components status:" (Some e)]).
Proof.
  intros Hf.
  unfold NotifyOnIssues.checkICNComponents, NotifyAlways.checkICNComponents.
  split.
  - erewrite try_catch_thrown; [|by apply bind_thrown]. by unfold_M.
  - erewrite try_catch_thrown; [|by apply bind_thrown]. by unfold_M.
Qed.
End Upstream.

(** C3. A response with a non-success HTTP status (outside 200-299) on
    any fetch of the components check (either version) or of the incidents
    check makes the check throw an error whose message names the fetch
    that failed and holds the status code; no snapshot is returned and no
    request is made to the webhook. *)
Theorem upstream_failure_fails_check `{Host} (env : gmap string string)
    (h : list event) :
  (∀ r, network h (GET ENDPOINTS.components) = Responded r →
        ¬ (200 ≤ Response.status r ≤ 299)%nat →
        let e := Error ("Failed to fetch components data: "
                        +:+ pretty (Response.status r) +:+ " "
                        +:+ Response.statusText r) in
        ∃ h', NotifyOnIssues.checkICNComponents env h = (Thrown e, h')
              ∧ NotifyAlways.checkICNComponents env h = (Thrown e, h')
              ∧ no_post_since h h')
  ∧ (∀ r1 r2,
        network h (GET ENDPOINTS.components) = Responded r1 →
        (200 ≤ Response.status r1 ≤ 299)%nat →
        network (h ++ [Fetched (GET ENDPOINTS.components)])
          (GET (API_BASE_URL +:+ "/status.json")) = Responded r2 →
        ¬ (200 ≤ Response.status r2 ≤ 299)%nat →
        let e := Error ("Failed to fetch status data: "
                        +:+ pretty (Response.status r2) +:+ " "
                        +:+ Response.statusText r2) in
        ∃ h', NotifyOnIssues.checkICNComponents env h = (Thrown e, h')
              ∧ NotifyAlways.checkICNComponents env h = (Thrown e, h')
              ∧ no_post_since h h')
  ∧ (∀ r, network h (GET ENDPOINTS.incidents) = Responded r →
          ¬ (200 ≤ Response.status r ≤ 299)%nat →
          let e := Error ("Failed to fetch incidents data: "
                          +:+ pretty (Response.status r) +:+ " "
                          +:+ Response.statusText r) in
          ∃ h', checkUnresolvedIncidents env h = (Thrown e, h')
                ∧ no_post_since h h').
Proof.
  split; [|split].
  - intros r Hnet Hok%Response_ok_false e.
    pose proof (fetchICNComponentsStatus_first_fails h r Hnet Hok) as Hf.
    destruct (checkICNComponents_rethrows env _ _ _ Hf) as [H1 H2].
    eexists. split; [exact H1|]. split; [exact H2|].
    eapply no_post_since_intro; [by rewrite <- app_assoc | done].
  - intros r1 r2 Hnet1 Hok1%Response_ok_true Hnet2 Hok2%Response_ok_false e.
    pose proof (fetchICNComponentsStatus_second_fails h r1 r2 Hnet1 Hok1 Hnet2 Hok2)
      as Hf.
    destruct (checkICNComponents_rethrows env _ _ _ Hf) as [H1 H2].
    eexists. split; [exact H1|]. split; [exact H2|].
    eapply no_post_since_intro; [by rewrite <- app_assoc | done].
  - intros r Hnet Hok%Response_ok_false e.
    pose proof (fetchUnresolvedIncidents_fails h r Hnet Hok) as Hf.
    eexists. split.
    + unfold checkUnresolvedIncidents.
      erewrite try_catch_thrown; [|by apply bind_thrown]. by unfold_M.
    + eapply no_post_since_intro; [by rewrite <- app_assoc | done].
Qed.

Lemma upstream_failure_fails_check_witness :
  let e1 := Error "Failed to fetch components data: 503 Service Unavailable" in
  let e2 := Error "Failed to fetch status data: 503 Service Unavailable" in
  let e3 := Error "Failed to fetch incidents data: 503 Service Unavailable" in
  (∃ h', NotifyOnIssues.checkICNComponents (H:=offline_host) configured [] = (Thrown e1, h')
         ∧ NotifyAlways.checkICNComponents (H:=offline_host) configured [] = (Thrown e1, h')
         ∧ no_post_since [] h')
  ∧ (∃ h', NotifyOnIssues.checkICNComponents
             (H:=ascii_host (up_once all_operational)) configured [] = (Thrown e2, h')
           ∧ NotifyAlways.checkICNComponents
               (H:=ascii_host (up_once all_operational)) configured [] = (Thrown e2, h')
           ∧ no_post_since [] h')
  ∧ (∃ h', checkUnresolvedIncidents (H:=offline_host) configured [] = (Thrown e3, h')
           ∧ no_post_since [] h').
Proof.
  intros e1 e2 e3.
  destruct (upstream_failure_fails_check (H:=offline_host) configured [])
    as (H1 & _ & H3).
  destruct (upstream_failure_fails_check
              (H:=ascii_host (up_once all_operational)) configured [])
    as (_ & H2 & _).
  set (r503 := {| Response.status := 503;
                  Response.statusText := "Service Unavailable";
                  Response.body := None |}).
  split; [|split].
  - apply (H1 r503); [reflexivity | simpl; lia].
  - apply (H2 (ok_response (Some all_operational)) r503);
      [reflexivity | simpl; lia | reflexivity | simpl; lia].
  - apply (H3 r503); [reflexivity | simpl; lia].
Defined.

(** ** The components message *)

Lemma componentEmoji_spec (c : Component.t) :
  (componentEmoji c = "✅" ↔ Component.status c = Some "operational")
  ∧ (componentEmoji c = "⚠️" ↔ Component.status c = Some "degraded_performance")
  ∧ (componentEmoji c = "❌" ↔
       Component.status c ≠ Some "operational"
       ∧ Component.status c ≠ Some "degraded_performance").
Proof.
  unfold componentEmoji.
  destruct (Component.status c) as [status|]; repeat case_bool_decide;
    repeat split; intros; simplify_eq; try done.
  all: by destruct_and?.
Qed.

(** The line of a component that has a status: the glyph, the name, and
    the status with its first underscore replaced. *)
Lemma pushComponent_line (blocks : list Block) (c : Component.t) (status : string) :
  Component.status c = Some status →
  pushComponent blocks c =
    Returned (blocks ++ [SectionBlock (componentEmoji c +:+ " *" +:+ Component.name c
                                  +:+ "*: " +:+ replace status "_" " ")]).
Proof. intros Hs. unfold pushComponent. by rewrite Hs. Qed.

Lemma replace_underscore_unfold (c : Ascii.ascii) (s : string) :
  replace (String c s) "_" " " =
  if Ascii.eqb c "_"%char then String " "%char s else String c (replace s "_" " ").
Proof.
  assert (String.prefix "_" (String c s) = Ascii.eqb c "_"%char) as Hp.
  { change (String.prefix "_" (String c s))
      with (if Ascii.ascii_dec "_"%char c then String.prefix "" s else false).
    destruct (Ascii.ascii_dec "_"%char c) as [<-|Hne].
    - by destruct s.
    - symmetry. apply Ascii.eqb_neq. congruence. }
  change (replace (String c s) "_" " ")
    with (if String.prefix "_" (String c s)
          then " " +:+ string_drop 1 (String c s)
          else String c (replace s "_" " ")).
  rewrite Hp. by destruct (Ascii.eqb c "_"%char).
Qed.

Lemma spaced_no_underscore (s : string) : underscores s = 0 → spaced s = s.
Proof.
  induction s as [|c s IH]; simpl; [done|].
  destruct (Ascii.eqb c "_"%char); [done|]. intros Hs. by rewrite IH.
Qed.

(** On a token with at most one underscore, [replace] does replace every
    underscore. *)
Lemma replace_spaced (s : string) :
  (underscores s ≤ 1)%nat → replace s "_" " " = spaced s.
Proof.
  induction s as [|c s IH]; [done|].
  rewrite replace_underscore_unfold. simpl.
  destruct (Ascii.eqb c "_"%char); simpl; intros Hs.
  - rewrite spaced_no_underscore; [done|lia].
  - by rewrite IH.
Qed.

(** C4 (the code departs from the claim).  The line of a component whose
    status holds two underscores keeps the second one: the component
    ["Seoul Node"] with status ["under_maintenance_window"] is rendered with
    the error glyph and the text ["under maintenance_window"], where every
    underscore replaced gives ["under maintenance window"]. *)
Theorem component_line_keeps_second_underscore :
  formatComponentsPayload "T" (listing [under_maintenance_window]) =
    Returned {| Payload.blocks :=
                  [HeaderBlock "🌐 Cloudflare ICN (Seoul) Status Update"; DividerBlock;
                   SectionBlock "*ICN Components:*";
                   SectionBlock "❌ *Seoul Node*: under maintenance_window";
                   ContextBlock "Last updated: T"];
                Payload.text := "Cloudflare ICN (Seoul) Status Update" |}
  ∧ pushComponent [] under_maintenance_window =
      Returned [SectionBlock "❌ *Seoul Node*: under maintenance_window"]
  ∧ spaced "under_maintenance_window" = "under maintenance window"
  ∧ replace "under_maintenance_window" "_" " " ≠ spaced "under_maintenance_window".
Proof. split; [done|]. split; [done|]. split; [done|]. by intros [=]. Qed.

(** ** The loop over the components *)

Lemma forEach_cons {A St} (f : St → A → outcome St) (x : A) (l : list A) (s : St) :
  forEach f (x :: l) s = f s x ≫= forEach f l.
Proof. reflexivity. Qed.

Lemma pushComponent_no_status (blocks : list Block) (c : Component.t) :
  Component.status c = None → pushComponent blocks c = Thrown TypeError.
Proof. intros Hc. unfold pushComponent. by rewrite Hc. Qed.

Lemma forEach_pushComponent_thrown (cs : list Component.t) (blocks : list Block)
    (c : Component.t) :
  c ∈ cs → Component.status c = None →
  forEach pushComponent cs blocks = Thrown TypeError.
Proof.
  intros Hin Hc. revert blocks.
  induction cs as [|c' cs IH]; intros blocks; [by apply elem_of_nil in Hin|].
  rewrite forEach_cons.
  apply elem_of_cons in Hin as [<-|Hin].
  - by rewrite pushComponent_no_status.
  - destruct (Component.status c') as [status|] eqn:Hs.
    + rewrite (pushComponent_line _ _ _ Hs). by apply IH.
    + by rewrite pushComponent_no_status.
Qed.

Lemma forEach_pushComponent_returned (cs : list Component.t) (blocks : list Block) :
  (∀ c, c ∈ cs → is_Some (Component.status c)) →
  ∃ lines, forEach pushComponent cs blocks = Returned (blocks ++ lines)
           ∧ length lines = length cs.
Proof.
  revert blocks. induction cs as [|c cs IH]; intros blocks Hall.
  - exists []. by rewrite app_nil_r.
  - destruct (Hall c) as [status Hs]; [by left|].
    rewrite forEach_cons, (pushComponent_line _ _ _ Hs).
    change (Returned ?a ≫= ?f) with (f a).
    destruct (IH (blocks ++ [SectionBlock (componentEmoji c +:+ " *" +:+ Component.name c
                                       +:+ "*: " +:+ replace status "_" " ")]))
      as (lines & -> & Hlen).
    { intros c' Hin. apply Hall. by right. }
    eexists (_ :: lines). split; [by rewrite <- app_assoc|]. simpl. by rewrite Hlen.
Qed.

(** ** The incidents message *)

Section Incidents.
Context `{Host}.

Lemma pushUpdate_app (len : nat) (blocks : list Block) (update : Update.t)
    (index : nat) :
  pushUpdate len blocks update index = blocks ++ updateEntry len index update.
Proof. reflexivity. Qed.

Lemma forEach_index_pushUpdate (len index : nat) (us : list Update.t)
    (blocks : list Block) :
  forEach_index (pushUpdate len) index us blocks
  = blocks ++ updateEntries len index us.
Proof.
  revert index blocks. induction us as [|update us IH]; intros index blocks; simpl.
  - by rewrite app_nil_r.
  - by rewrite IH, pushUpdate_app, <- app_assoc.
Qed.

Lemma pushIncident_app (blocks : list Block) (incident : Incident.t) :
  pushIncident blocks incident = blocks ++ incidentBlocks incident.
Proof.
  unfold incidentBlocks, pushIncident.
  destruct (Incident.incident_updates incident) as [[|update us]|];
    destruct (Incident.components incident) as [[|c cs]|];
    rewrite ?forEach_index_pushUpdate; try case_bool_decide;
    by rewrite <- ?app_assoc.
Qed.

Lemma fold_left_pushIncident (incidents : list Incident.t) (blocks : list Block) :
  fold_left pushIncident incidents blocks
  = blocks ++ flat_map incidentBlocks incidents.
Proof.
  revert blocks. induction incidents as [|incident incidents IH]; intros blocks; simpl.
  - by rewrite app_nil_r.
  - by rewrite IH, pushIncident_app, <- app_assoc.
Qed.

Lemma update_entries_app (l1 l2 : list Block) :
  update_entries (l1 ++ l2) = update_entries l1 + update_entries l2.
Proof. unfold update_entries. by rewrite List.filter_app, length_app. Qed.

Lemma update_entries_updateEntry (len index : nat) (update : Update.t) :
  update_entries (updateEntry len index update) = 1.
Proof.
  unfold update_entries, updateEntry, pushUpdate.
  rewrite app_nil_l. cbn [List.filter is_update_time].
  assert (String.prefix "Updated: "
            ("Updated: " +:+ toLocaleString (Update.created_at update)) = true)
    as -> by (apply prefix_spec; eauto).
  done.
Qed.

Lemma update_entries_updateEntries (len index : nat) (us : list Update.t) :
  update_entries (updateEntries len index us) = length us.
Proof.
  revert index. induction us as [|update us IH]; intros index; [done|].
  change (updateEntries len index (update :: us))
    with (updateEntry len index update ++ updateEntries len (S index) us).
  by rewrite update_entries_app, IH, update_entries_updateEntry.
Qed.
End Incidents.

Lemma incidentBlocks_unfold `{Host} (incident : Incident.t) :
  incidentBlocks incident =
    [SectionBlock (incidentHeadline incident)]
    ++ timeline (default [] (Incident.incident_updates incident))
    ++ affectedComponents incident ++ [DividerBlock].
Proof.
  unfold incidentBlocks, pushIncident, timeline, incidentHeadline, affectedComponents.
  rewrite app_nil_l.
  destruct (Incident.incident_updates incident) as [[|update us]|];
    destruct (Incident.components incident) as [[|c cs]|];
    destruct (Incident.impact incident) as [[|a impact]|];
    destruct (Incident.monitoring incident);
    cbv [default from_option id];
    rewrite ?forEach_index_pushUpdate;
    try case_bool_decide; rewrite <- ?app_assoc; reflexivity.
Qed.

Lemma update_entries_note (text : string) :
  update_entries [ContextBlock ("_" +:+ text)] = 0.
Proof. reflexivity. Qed.

Lemma update_entries_timeline `{Host} (us : list Update.t) :
  update_entries (timeline us) = min 3 (length us).
Proof.
  unfold timeline. destruct us as [|update us]; [done|].
  cbv zeta. rewrite !update_entries_app, update_entries_updateEntries, length_take.
  change (update_entries [SectionBlock "*Incident Timeline:*"]) with 0.
  case_bool_decide.
  - rewrite update_entries_note. lia.
  - change (update_entries []) with 0. lia.
Qed.

Lemma formatIncidentsPayload_blocks `{Host} (timestamp : string) (data : Doc.t)
    (incidents : list Incident.t) :
  Doc.incidents data = Some incidents → incidents ≠ [] →
  Payload.blocks (formatIncidentsPayload timestamp data) =
    [HeaderBlock "🚨 Cloudflare Incident Alert"; DividerBlock]
    ++ flat_map incidentBlocks incidents
    ++ [ContextBlock ("Last checked: " +:+ timestamp)].
Proof.
  intros Hi Hne. unfold formatIncidentsPayload. rewrite Hi.
  destruct incidents as [|incident incidents]; [done|].
  cbn [Payload.blocks]. by rewrite fold_left_pushIncident, <- app_assoc.
Qed.

Lemma update_entries_incidentBlocks `{Host} (incident : Incident.t) :
  update_entries (incidentBlocks incident)
  = min 3 (length (default [] (Incident.incident_updates incident))).
Proof.
  rewrite incidentBlocks_unfold, !update_entries_app, update_entries_timeline.
  change (update_entries [SectionBlock (incidentHeadline incident)]) with 0.
  change (update_entries [DividerBlock]) with 0.
  assert (update_entries (affectedComponents incident) = 0) as ->; [|lia].
  unfold affectedComponents. by destruct (Incident.components incident) as [[|c cs]|].
Qed.

Lemma update_entries_incidents `{Host} (incidents : list Incident.t) :
  update_entries (flat_map incidentBlocks incidents)
  = sum_list (map (λ incident,
                     min 3 (length (default [] (Incident.incident_updates incident))))
                incidents).
Proof.
  induction incidents as [|incident incidents IH]; [done|].
  simpl flat_map. rewrite update_entries_app, update_entries_incidentBlocks, IH.
  reflexivity.
Qed.

Lemma formatIncidentsPayload_message `{Host} (timestamp : string) (data : Doc.t) :
  Payload.blocks (formatIncidentsPayload timestamp data) =
    [HeaderBlock "🚨 Cloudflare Incident Alert"; DividerBlock]
    ++ match default [] (Doc.incidents data) with
       | [] => [SectionBlock "_No active incidents reported_"]
       | _ => flat_map incidentBlocks (default [] (Doc.incidents data))
       end
    ++ [ContextBlock ("Last checked: " +:+ timestamp)].
Proof.
  unfold formatIncidentsPayload.
  destruct (Doc.incidents data) as [[|incident incidents]|]; [done| |done].
  cbv [Payload.blocks default from_option id].
  by rewrite fold_left_pushIncident, <- app_assoc.
Qed.

Lemma timeline_short `{Host} (us : list Update.t) :
  (length us ≤ 3)%nat →
  timeline us =
    match us with
    | [] => []
    | _ => [SectionBlock "*Incident Timeline:*"] ++ updateEntries (length us) 0 us
    end.
Proof.
  intros Hlen. unfold timeline. destruct us as [|update us]; [done|].
  cbv zeta. rewrite bool_decide_eq_false_2 by lia.
  by rewrite firstn_all2, app_nil_r by done.
Qed.

Lemma timeline_long `{Host} (us : list Update.t) :
  (3 < length us)%nat →
  timeline us =
    [SectionBlock "*Incident Timeline:*"]
    ++ updateEntries 3 0 (take 3 us)
    ++ [ContextBlock ("_" +:+ pretty (length us - 3) +:+ " more updates not shown_")].
Proof.
  intros Hlen. unfold timeline. destruct us as [|update us]; [by simpl in Hlen; lia|].
  cbv zeta. rewrite length_take, bool_decide_eq_true_2 by done.
  by replace (3 `min` length (update :: us)) with 3 by lia.
Qed.

(** C5. The incidents message is the header, the blocks of each incident
    in turn and the time of the check, and nothing else; the blocks of an
    incident are its headline, its timeline, its affected components and a
    divider.  Of the updates of an incident the message shows the first
    three at most: the blocks of an incident with [n] updates (none when
    [incident_updates] is absent) hold [min 3 n] update entries, those of
    its first [min 3 n] updates in order, and the whole message holds the
    sum of these numbers.  With more than three updates there are exactly
    three entries, followed by a note with the number of updates not
    shown; with five updates the note reads [2 more updates not shown]. *)
Theorem incident_timeline_truncated `{Host} (timestamp : string) (data : Doc.t) :
  let incidents := default [] (Doc.incidents data) in
  let updates incident := default [] (Incident.incident_updates incident) in
  Payload.blocks (formatIncidentsPayload timestamp data) =
    [HeaderBlock "🚨 Cloudflare Incident Alert"; DividerBlock]
    ++ match incidents with
       | [] => [SectionBlock "_No active incidents reported_"]
       | _ => flat_map incidentBlocks incidents
       end
    ++ [ContextBlock ("Last checked: " +:+ timestamp)]
  ∧ update_entries (Payload.blocks (formatIncidentsPayload timestamp data))
    = sum_list (map (λ incident, min 3 (length (updates incident))) incidents)
  ∧ ∀ incident,
      let us := updates incident in
      incidentBlocks incident =
        [SectionBlock (incidentHeadline incident)] ++ timeline us
        ++ affectedComponents incident ++ [DividerBlock]
      ∧ update_entries (incidentBlocks incident) = min 3 (length us)
      ∧ ((length us ≤ 3)%nat →
           timeline us =
             match us with
             | [] => []
             | _ => [SectionBlock "*Incident Timeline:*"]
                    ++ updateEntries (length us) 0 us
             end
           ∧ update_entries (incidentBlocks incident) = length us)
      ∧ ((3 < length us)%nat →
           timeline us =
             [SectionBlock "*Incident Timeline:*"]
             ++ updateEntries 3 0 (take 3 us)
             ++ [ContextBlock ("_" +:+ pretty (length us - 3)
                               +:+ " more updates not shown_")]
           ∧ update_entries (incidentBlocks incident) = 3)
      ∧ (length us = 5 →
           timeline us =
             [SectionBlock "*Incident Timeline:*"]
             ++ updateEntries 3 0 (take 3 us)
             ++ [ContextBlock "_2 more updates not shown_"]
           ∧ update_entries (incidentBlocks incident) = 3).
Proof.
  intros incidents updates. split; [|split].
  - apply formatIncidentsPayload_message.
  - rewrite formatIncidentsPayload_message, !update_entries_app.
    change (update_entries [HeaderBlock "🚨 Cloudflare Incident Alert"; DividerBlock])
      with 0.
    assert (update_entries [ContextBlock ("Last checked: " +:+ timestamp)] = 0) as ->
      by reflexivity.
    fold incidents. destruct incidents as [|incident rest] eqn:Hi; [done|].
    rewrite update_entries_incidents. unfold updates. lia.
  - intros incident us.
    pose proof (update_entries_incidentBlocks incident) as Hcount.
    fold (updates incident) in Hcount. fold us in Hcount.
    split; [apply incidentBlocks_unfold|]. split; [done|]. split; [|split].
    + intros Hlen. split; [by apply timeline_short|]. rewrite Hcount. lia.
    + intros Hlen. split; [by apply timeline_long|]. rewrite Hcount. lia.
    + intros Hlen. split; [|rewrite Hcount; lia].
      rewrite timeline_long by lia. rewrite Hlen. do 2 f_equal.
Qed.

Lemma incident_timeline_truncated_witness :
  update_entries
    (Payload.blocks (formatIncidentsPayload (H:=offline_host) "" (unresolved [outage])))
  = 3
  ∧ update_entries (incidentBlocks (H:=offline_host) outage) = 3
  ∧ timeline (H:=offline_host) [update 5; update 4; update 3; update 2; update 1] =
      [SectionBlock "*Incident Timeline:*"]
      ++ updateEntries (H:=offline_host) 3 0 [update 5; update 4; update 3]
      ++ [ContextBlock "_2 more updates not shown_"].
Proof.
  destruct (incident_timeline_truncated (H:=offline_host) "" (unresolved [outage]))
    as (_ & Hmessage & Hincident).
  destruct (Hincident outage) as (_ & _ & _ & _ & Hfive).
  destruct (Hfive eq_refl) as [Htimeline Hcount].
  split; [exact Hmessage|]. split; [exact Hcount | exact Htimeline].
Defined.

(** ** Totality of the formatters *)

Lemma incidentBlocks_headline `{Host} (incident : Incident.t) :
  ∃ rest tail,
    incidentBlocks incident =
      SectionBlock (getStatusEmoji (Incident.status incident) +:+ " *"
               +:+ Incident.name incident +:+ "*" +:+ nl +:+ "*Status:* "
               +:+ or_else (Incident.status incident) "Unknown" +:+ rest) :: tail.
Proof.
  unfold incidentBlocks, pushIncident. rewrite app_nil_l.
  eexists.
  destruct (Incident.incident_updates incident) as [[|update us]|];
    destruct (Incident.components incident) as [[|c cs]|];
    rewrite ?forEach_index_pushUpdate; try case_bool_decide;
    rewrite <- ?app_assoc; eexists; rewrite <- app_comm_cons, app_nil_l; reflexivity.
Qed.

Lemma formatComponentsPayload_thrown (timestamp : string) (data : Doc.t)
    (cs : list Component.t) (c : Component.t) :
  Doc.components data = Some cs → c ∈ cs → Component.status c = None →
  formatComponentsPayload timestamp data = Thrown TypeError.
Proof.
  intros Hcs Hin Hc. unfold formatComponentsPayload. rewrite Hcs.
  destruct cs as [|c' cs]; [by apply elem_of_nil in Hin|].
  by rewrite (forEach_pushComponent_thrown _ _ c Hin Hc).
Qed.

Lemma formatComponentsPayload_returned (timestamp : string) (data : Doc.t) :
  (∀ cs c, Doc.components data = Some cs → c ∈ cs → is_Some (Component.status c)) →
  ∃ payload, formatComponentsPayload timestamp data = Returned payload.
Proof.
  intros Hall. unfold formatComponentsPayload.
  destruct (Doc.components data) as [[|c cs]|] eqn:Hcs; [by eexists| |by eexists].
  edestruct (forEach_pushComponent_returned (c :: cs)) as (lines & -> & _);
    [intros c' Hin; by eapply Hall|].
  by eexists.
Qed.

(** C10. The components formatter returns only if every component has a
    string status: a component whose status is absent or null makes
    [formatComponentsPayload] throw a [TypeError], and with a status on
    every component it returns a payload.  The incidents formatter
    returns on every input, and renders an incident without status with
    the default glyph and the text [Unknown]. *)
Theorem formatters_totality `{Host} (timestamp : string) (data : Doc.t) :
  (∀ cs c, Doc.components data = Some cs → c ∈ cs → Component.status c = None →
           formatComponentsPayload timestamp data = Thrown TypeError
           ∧ formatSlackPayload timestamp data "components" = Thrown TypeError)
  ∧ ((∀ cs c, Doc.components data = Some cs → c ∈ cs →
              is_Some (Component.status c)) →
     ∃ payload, formatComponentsPayload timestamp data = Returned payload)
  ∧ formatSlackPayload timestamp data "incidents"
    = Returned (formatIncidentsPayload timestamp data)
  ∧ getStatusEmoji None = "⚠️"
  ∧ (∀ incidents incident,
       Doc.incidents data = Some incidents → incident ∈ incidents →
       Incident.status incident = None →
       ∃ rest before after,
         Payload.blocks (formatIncidentsPayload timestamp data) =
           before
           ++ [SectionBlock ("⚠️ *" +:+ Incident.name incident +:+ "*" +:+ nl
                        +:+ "*Status:* Unknown" +:+ rest)]
           ++ after).
Proof.
  split; [|split; [|split; [|split]]].
  - intros cs c Hcs Hin Hc.
    pose proof (formatComponentsPayload_thrown timestamp data cs c Hcs Hin Hc) as Hf.
    split; [done|]. unfold formatSlackPayload. by rewrite bool_decide_eq_true_2.
  - apply formatComponentsPayload_returned.
  - done.
  - done.
  - intros incidents incident Hi Hin Hs.
    destruct (incidentBlocks_headline incident) as (rest & tail & Hhead).
    rewrite Hs in Hhead.
    rewrite (formatIncidentsPayload_blocks timestamp data incidents Hi)
      by (intros ->; by apply elem_of_nil in Hin).
    apply list_elem_of_split in Hin as (l1 & l2 & ->).
    rewrite flat_map_app. simpl flat_map. rewrite Hhead.
    exists rest,
      ([HeaderBlock "🚨 Cloudflare Incident Alert"; DividerBlock] ++ flat_map incidentBlocks l1),
      (tail ++ flat_map incidentBlocks l2 ++ [ContextBlock ("Last checked: " +:+ timestamp)]).
    by rewrite <- !app_assoc.
Qed.

Lemma formatters_totality_witness :
  formatComponentsPayload "T" (listing [seoul_node; no_status]) = Thrown TypeError
  ∧ (∃ payload, formatComponentsPayload "T" (listing [seoul_node]) = Returned payload)
  ∧ (∃ rest before after,
       Payload.blocks (formatIncidentsPayload (H:=offline_host) "T" (unresolved [outage])) =
         before
         ++ [SectionBlock ("⚠️ *Network outage in ICN*" +:+ nl +:+ "*Status:* Unknown" +:+ rest)]
         ++ after).
Proof.
  destruct (formatters_totality (H:=offline_host) "T" (listing [seoul_node; no_status]))
    as (H1 & _).
  destruct (formatters_totality (H:=offline_host) "T" (listing [seoul_node]))
    as (_ & H2 & _).
  destruct (formatters_totality (H:=offline_host) "T" (unresolved [outage]))
    as (_ & _ & _ & _ & H5).
  split; [|split].
  - apply (H1 [seoul_node; no_status] no_status); [reflexivity| |reflexivity].
    apply list_elem_of_further, list_elem_of_here.
  - apply H2. intros cs c [= <-] Hin.
    apply list_elem_of_singleton in Hin as ->. by exists "degraded_performance".
  - apply (H5 [outage] outage); [reflexivity| |reflexivity].
    apply list_elem_of_here.
Defined.

(** ** Merging the two documents *)

(** C6. The merged document takes its [status] and its other properties
    from the status document and its components from the listing, whatever
    components the status document has; an absent listing gives the empty
    list.  Merging the status document [All Systems Operational] with the
    listing of [ICN Load Balancer] and filtering on [icn] gives the
    description [All Systems Operational] and that one component, as does a
    run of the fetch on a network serving these two documents. *)
Theorem combine_and_filter (net : list event → request → fetch_outcome) :
  (∀ statusData componentsData,
      Doc.status (combine statusData componentsData) = Doc.status statusData
      ∧ Doc.rest (combine statusData componentsData) = Doc.rest statusData
      ∧ Doc.incidents (combine statusData componentsData) = Doc.incidents statusData
      ∧ Doc.components (combine statusData componentsData)
        = Some (default [] (Doc.components componentsData)))
  ∧ (let snapshot :=
       filterForICN_with (H:=ascii_host net) ["icn"]
         (combine all_operational (listing [icn_load_balancer])) in
     (Doc.status snapshot ≫= Status.description) = Some "All Systems Operational"
     ∧ Doc.components snapshot = Some [icn_load_balancer]
     ∧ Component.name icn_load_balancer = "ICN Load Balancer")
  ∧ (∃ h, fetchICNComponentsStatus_with
            (H:=ascii_host (online (listing [icn_load_balancer]) all_operational))
            ["icn"] []
          = (Returned {| Doc.status := Doc.status all_operational;
                         Doc.components := Some [icn_load_balancer];
                         Doc.incidents := None; Doc.rest := [] |}, h)).
Proof.
  split; [done|]. split; [done|]. by eexists.
Qed.

(** ** Unknown notification types *)

Lemma formatSlackPayload_unknown `{Host} (timestamp : string) (data : Doc.t)
    (type : string) :
  type ≠ "components" → type ≠ "incidents" →
  formatSlackPayload timestamp data type
  = Thrown (Error ("Unknown notification type: " +:+ type)).
Proof.
  intros Hc Hi. unfold formatSlackPayload.
  by rewrite !bool_decide_eq_false_2.
Qed.

(** C7, as stated, fails: with the webhook configured, a notification of
    the unknown type [alerts] does not throw; the sender logs the error
    and returns [false]. *)
Lemma sendSlackNotification_unknown_type_returns :
  sendSlackNotification (H:=offline_host) configured all_operational "alerts" []
  = (Returned false,
     [Logged "Error sending Slack notification:"
        (Some (Error "Unknown notification type: alerts"))])
  ∧ ¬ (∃ e h',
         sendSlackNotification (H:=offline_host) configured all_operational "alerts" []
         = (Thrown e, h')).
Proof.
  assert (sendSlackNotification (H:=offline_host) configured all_operational "alerts" []
          = (Returned false,
             [Logged "Error sending Slack notification:"
                (Some (Error "Unknown notification type: alerts"))])) as Hrun
    by (vm_compute; reflexivity).
  split; [exact Hrun|]. intros (e & h' & Hthrown). congruence.
Qed.

(** C7, amended.  For a type other than [components] and [incidents] the
    formatter throws an error naming the type.  The sender does not let it
    out: it returns [false] and makes no request to the webhook; with a
    webhook URL configured it logs that error, and without one it logs
    that the URL is not configured, before any formatting. *)
Theorem unknown_type_is_caught `{Host} (env : gmap string string) (data : Doc.t)
    (type : string) (h : list event) :
  type ≠ "components" → type ≠ "incidents" →
  (∀ timestamp,
     formatSlackPayload timestamp data type
     = Thrown (Error ("Unknown notification type: " +:+ type)))
  ∧ ∃ h', sendSlackNotification env data type h = (Returned false, h')
          ∧ no_post_since h h'
          ∧ (truthy (env !! SLACK_CONFIG.webhookEnvKey) = true →
             h' = h ++ [Logged "Error sending Slack notification:"
                          (Some (Error ("Unknown notification type: " +:+ type)))])
          ∧ (truthy (env !! SLACK_CONFIG.webhookEnvKey) = false →
             h' = h ++ [Logged "Slack webhook URL not configured" None]).
Proof.
  intros Hc Hi. split; [intros; by apply formatSlackPayload_unknown|].
  unfold sendSlackNotification.
  destruct (truthy (env !! SLACK_CONFIG.webhookEnvKey)) eqn:Hurl; unfold_M; simpl.
  - rewrite formatSlackPayload_unknown by done.
    eexists. split; [done|]. split; [|done].
    by eapply no_post_since_intro.
  - eexists. split; [done|]. split; [|done].
    by eapply no_post_since_intro.
Qed.

Lemma unknown_type_is_caught_witness :
  (∀ timestamp,
     formatSlackPayload (H:=offline_host) timestamp all_operational "alerts"
     = Thrown (Error "Unknown notification type: alerts"))
  ∧ ∃ h', sendSlackNotification (H:=offline_host) configured all_operational "alerts" []
          = (Returned false, h')
          ∧ no_post_since [] h'
          ∧ (truthy (configured !! SLACK_CONFIG.webhookEnvKey) = true →
             h' = [] ++ [Logged "Error sending Slack notification:"
                           (Some (Error "Unknown notification type: alerts"))])
          ∧ (truthy (configured !! SLACK_CONFIG.webhookEnvKey) = false →
             h' = [] ++ [Logged "Slack webhook URL not configured" None]).
Proof.
  apply (unknown_type_is_caught (H:=offline_host) configured all_operational "alerts" []).
  - intros [=].
  - intros [=].
Defined.

(** ** Absent and empty component lists *)

(** C8. The filter is called once, on the merge of the two documents,
    and the merge always holds a components list: the one of the listing,
    or the empty list when the listing has none.  So on a listing whose
    components are absent or the empty list the snapshot handed to the
    filter has the empty list, the filter returns it as it is, with a
    components list that is present and empty, and the fetch returns that
    snapshot instead of throwing.  The filter returns the empty list on
    every snapshot whose list is empty. *)
Theorem filterForICN_empty_or_absent `{Host} (K : list string)
    (statusData componentsData : Doc.t) :
  Doc.components componentsData = None ∨ Doc.components componentsData = Some [] →
  Doc.components (combine statusData componentsData) = Some []
  ∧ filterForICN_with K (combine statusData componentsData)
    = combine statusData componentsData
  ∧ Doc.components (filterForICN_with K (combine statusData componentsData)) = Some []
  ∧ (∀ data, Doc.components data = Some [] →
       Doc.components (filterForICN_with K data) = Some [])
  ∧ (∀ s c, is_Some (Doc.components (combine s c)))
  ∧ (∀ h r1 r2,
       network h (GET ENDPOINTS.components) = Responded r1 →
       (200 ≤ Response.status r1 ≤ 299)%nat →
       network (h ++ [Fetched (GET ENDPOINTS.components)])
         (GET (API_BASE_URL +:+ "/status.json")) = Responded r2 →
       (200 ≤ Response.status r2 ≤ 299)%nat →
       Response.body r1 = Some componentsData →
       Response.body r2 = Some statusData →
       fetchICNComponentsStatus_with K h
       = (Returned (combine statusData componentsData),
          h ++ [Fetched (GET ENDPOINTS.components);
                Fetched (GET (API_BASE_URL +:+ "/status.json"))])).
Proof.
  intros Hcs.
  assert (Doc.components (combine statusData componentsData) = Some []) as Hmerge.
  { unfold combine. by destruct Hcs as [-> | ->]. }
  assert (filterForICN_with K (combine statusData componentsData)
          = combine statusData componentsData) as Hsame.
  { unfold filterForICN_with. rewrite Hmerge. simpl.
    unfold combine. by destruct Hcs as [-> | ->]. }
  split; [done|]. split; [done|]. split; [by rewrite Hsame|].
  split; [|split].
  - intros data Hdata. unfold filterForICN_with. by rewrite Hdata.
  - intros s c. by eexists.
  - intros h r1 r2 N1 O1%Response_ok_true N2 O2%Response_ok_true B1 B2.
    unfold fetchICNComponentsStatus_with. unfold_M.
    rewrite N1, O1. simpl. rewrite N2, O2. simpl.
    unfold Response.json. rewrite B1, B2. simpl.
    by rewrite Hsame, <- app_assoc.
Qed.

Lemma filterForICN_empty_or_absent_witness :
  let host := ascii_host (online all_operational all_operational) in
  Doc.components (combine all_operational all_operational) = Some []
  ∧ Doc.components
      (filterForICN_with (H:=host) ICN_KEYWORDS
         (combine all_operational all_operational)) = Some []
  ∧ fetchICNComponentsStatus_with (H:=host) ICN_KEYWORDS []
    = (Returned (combine all_operational all_operational),
       [] ++ [Fetched (GET ENDPOINTS.components);
              Fetched (GET (API_BASE_URL +:+ "/status.json"))]).
Proof.
  intros host.
  destruct (filterForICN_empty_or_absent (H:=host) ICN_KEYWORDS
              all_operational all_operational (or_introl eq_refl))
    as (Hmerge & _ & Hfilter & _ & _ & Hrun).
  split; [exact Hmerge|]. split; [exact Hfilter|].
  apply (Hrun [] (ok_response (Some all_operational))
           (ok_response (Some all_operational)));
    [reflexivity | simpl; lia | reflexivity | simpl; lia | reflexivity | reflexivity].
Defined.

(** ** The filter leaves its input alone *)

Lemma alloc_fresh (c : cell) (σ : gmap loc cell) : σ !! (alloc c σ).1 = None.
Proof. apply not_elem_of_dom, is_fresh. Qed.

Lemma read_elements_weaken (σ σ' : gmap loc cell) (elements : list loc)
    (cs : list Component.t) :
  σ ⊆ σ' → read_elements σ elements = Some cs → read_elements σ' elements = Some cs.
Proof.
  intros Hsub. revert cs. induction elements as [|e elements IH]; intros cs; [done|].
  simpl. destruct (σ !! e) as [[| |c]|] eqn:He; try done.
  rewrite (lookup_weaken _ _ _ _ He Hsub).
  destruct (read_elements σ elements) as [cs'|]; [|done].
  by rewrite (IH cs' eq_refl).
Qed.

Lemma JSON_stringify_weaken (σ σ' : gmap loc cell) (l : loc) (data : Doc.t) :
  σ ⊆ σ' → JSON_stringify σ l = Some data → JSON_stringify σ' l = Some data.
Proof.
  intros Hsub. unfold JSON_stringify.
  destruct (σ !! l) as [[status [a|] incidents rest| |]|] eqn:Hl; try done;
    rewrite (lookup_weaken _ _ _ _ Hl Hsub); [|done].
  destruct (σ !! a) as [[|elements|]|] eqn:Ha; try done.
  rewrite (lookup_weaken _ _ _ _ Ha Hsub).
  destruct (read_elements σ elements) as [cs|] eqn:Hcs; [|done].
  by rewrite (read_elements_weaken _ _ _ _ Hsub Hcs).
Qed.

(** Writing a cell that is not a component object does not change what an
    array of component objects holds. *)
Lemma read_elements_insert (σ : gmap loc cell) (k : loc) (c : cell)
    (elements : list loc) (cs : list Component.t) :
  (∀ component, σ !! k ≠ Some (ObjComponent component)) →
  read_elements σ elements = Some cs →
  read_elements (<[k := c]> σ) elements = Some cs.
Proof.
  intros Hk. revert cs. induction elements as [|e elements IH]; intros cs; [done|].
  simpl. destruct (σ !! e) as [[| |component]|] eqn:He; try done.
  assert (k ≠ e) as Hne by (intros ->; by eapply Hk).
  rewrite lookup_insert_ne, He by done.
  destruct (read_elements σ elements) as [cs'|]; [|done].
  by rewrite (IH cs' eq_refl).
Qed.

Lemma alloc_components_spec (cs : list Component.t) (σ : gmap loc cell) :
  σ ⊆ (alloc_components cs σ).2
  ∧ read_elements (alloc_components cs σ).2 (alloc_components cs σ).1 = Some cs
  ∧ Forall (λ k, σ !! k = None) (alloc_components cs σ).1.
Proof.
  revert σ. induction cs as [|c cs IH]; intros σ; [done|].
  simpl. destruct (IH (<[fresh (dom σ) := ObjComponent c]> σ)) as (Hsub & Hread & Hfresh).
  destruct (alloc_components cs (<[fresh (dom σ) := ObjComponent c]> σ))
    as [ls σ'] eqn:E.
  simpl in *.
  pose proof (alloc_fresh (ObjComponent c) σ) as Hl. simpl in Hl.
  split; [|split].
  - etrans; [|exact Hsub]. by apply insert_subseteq.
  - rewrite (lookup_weaken _ _ _ _ (lookup_insert_eq _ _ _) Hsub).
    by rewrite Hread.
  - constructor; [done|].
    eapply Forall_impl; [exact Hfresh|]. intros k Hk.
    eapply lookup_weaken_None; [exact Hk|]. by apply insert_subseteq.
Qed.

Lemma filter_elements_spec (p : Component.t → bool) (σ : gmap loc cell)
    (elements : list loc) (cs : list Component.t) :
  read_elements σ elements = Some cs →
  ∃ kept, filter_elements p σ elements = Some kept
          ∧ read_elements σ kept = Some (List.filter p cs)
          ∧ kept ⊆ elements.
Proof.
  revert cs. induction elements as [|e elements IH]; intros cs.
  - intros [= <-]. by exists [].
  - simpl. destruct (σ !! e) as [[| |c]|] eqn:He; try done.
    destruct (read_elements σ elements) as [cs'|]; [|done].
    intros [= <-]. destruct (IH cs' eq_refl) as (kept & -> & Hread & Hsub).
    simpl. destruct (p c).
    + exists (e :: kept). split; [done|]. split.
      * simpl. by rewrite He, Hread.
      * intros k [->|Hk]%elem_of_cons; [by left | right; by apply Hsub].
    + exists kept. split; [done|]. split; [done|].
      intros k Hk. right. by apply Hsub.
Qed.

Lemma JSON_parse_spec (text : Doc.t) (σ : gmap loc cell) :
  let l := (JSON_parse text σ).1 in
  let σ' := (JSON_parse text σ).2 in
  σ ⊆ σ' ∧ σ !! l = None ∧
  match Doc.components text with
  | None =>
      σ' !! l = Some (ObjDoc (Doc.status text) None (Doc.incidents text) (Doc.rest text))
  | Some cs =>
      ∃ a ls,
        σ' !! l = Some (ObjDoc (Doc.status text) (Some a) (Doc.incidents text)
                          (Doc.rest text))
        ∧ σ' !! a = Some (Arr ls)
        ∧ read_elements σ' ls = Some cs
        ∧ σ !! a = None
        ∧ Forall (λ k, σ !! k = None) ls
  end.
Proof.
  unfold JSON_parse. destruct (Doc.components text) as [cs|].
  - destruct (alloc_components_spec cs σ) as (Hsub & Hread & Hfresh).
    destruct (alloc_components cs σ) as [ls σ1]. simpl in Hsub, Hread, Hfresh.
    cbn zeta beta iota delta [alloc fst snd].
    set (a := fresh (dom σ1)). set (σ2 := <[a := Arr ls]> σ1).
    set (l := fresh (dom σ2)).
    assert (σ1 !! a = None) as Ha by apply not_elem_of_dom, is_fresh.
    assert (σ2 !! l = None) as Hl by apply not_elem_of_dom, is_fresh.
    assert (σ1 ⊆ σ2) as H12 by by apply insert_subseteq.
    assert (σ2 ⊆ <[l := ObjDoc (Doc.status text) (Some a) (Doc.incidents text)
                          (Doc.rest text)]> σ2) as H23 by by apply insert_subseteq.
    assert (σ2 !! a = Some (Arr ls)) as Ha2 by apply lookup_insert_eq.
    assert (σ ⊆ σ2) as H02 by (etrans; [exact Hsub | exact H12]).
    split; [etrans; [exact H02 | exact H23]|].
    split; [eapply lookup_weaken_None; [exact Hl | exact H02]|].
    exists a, ls. split; [apply lookup_insert_eq|].
    split; [eapply lookup_weaken; [exact Ha2 | exact H23]|].
    split.
    { eapply read_elements_weaken; [|exact Hread]. etrans; [exact H12 | exact H23]. }
    split; [eapply lookup_weaken_None; [exact Ha | exact Hsub]|done].
  - simpl. split; [apply insert_subseteq|split];
      [apply not_elem_of_dom, is_fresh ..|apply lookup_insert_eq].
Qed.

(** C9. The filter does not change its input.  When [l] is a document of
    the store, [filterForICN] returns; every cell the store held before the
    call holds the same value after it, so that the input reads as the
    same snapshot; the result is made of new cells only (an independent
    copy) and reads as the filtered snapshot. *)
Theorem filterForICN_store_frame `{Host} (K : list string) (σ : gmap loc cell)
    (l : loc) (data : Doc.t) :
  JSON_stringify σ l = Some data →
  ∃ l' σ', filterForICN_store K l σ = Some (l', σ')
    ∧ σ ⊆ σ'
    ∧ JSON_stringify σ' l = Some data
    ∧ Forall (λ k, k ∉ dom σ) (footprint σ' l')
    ∧ JSON_stringify σ' l' = Some (filterForICN_with K data).
Proof.
  intros Hdata. unfold filterForICN_store. rewrite Hdata. simpl.
  pose proof (JSON_parse_spec data σ) as (Hsub & Hfresh & Hparse).
  destruct (JSON_parse data σ) as [l' σ1]. simpl in Hsub, Hfresh, Hparse.
  unfold filterForICN_with.
  destruct (Doc.components data) as [cs|] eqn:Hcs.
  - destruct Hparse as (a & ls & Hl' & Ha & Hread & Hafresh & Hlsfresh).
    rewrite Hl', Ha.
    destruct (filter_elements_spec (isICN K) σ1 ls cs Hread)
      as (kept & -> & Hkept & Hsubl).
    cbn zeta beta iota delta [alloc mbind option_bind].
    set (a' := fresh (dom σ1)). set (σ2 := <[a' := Arr kept]> σ1).
    set (doc := ObjDoc (Doc.status data) (Some a') (Doc.incidents data) (Doc.rest data)).
    assert (σ1 !! a' = None) as Ha' by apply not_elem_of_dom, is_fresh.
    assert (σ1 ⊆ σ2) as H12 by by apply insert_subseteq.
    assert (a' ≠ l') as Hne by (intros ->; congruence).
    assert (σ ⊆ <[l' := doc]> σ2) as Hsub3.
    { apply insert_subseteq_r; [done|]. by etrans. }
    assert (<[l' := doc]> σ2 !! a' = Some (Arr kept)) as Hlook.
    { rewrite lookup_insert_ne by done. apply lookup_insert_eq. }
    exists l', (<[l' := doc]> σ2).
    split; [done|]. split; [done|]. split; [by eapply JSON_stringify_weaken|].
    split.
    + unfold footprint. rewrite lookup_insert_eq. subst doc. cbv iota. rewrite Hlook.
      constructor; [by apply not_elem_of_dom|].
      constructor; [eapply not_elem_of_dom, lookup_weaken_None; done|].
      apply Forall_forall. intros k Hk. apply not_elem_of_dom.
      eapply (proj1 (Forall_forall _ _) Hlsfresh). by apply Hsubl.
    + unfold JSON_stringify. rewrite lookup_insert_eq. subst doc. cbv iota.
      rewrite Hlook.
      erewrite read_elements_insert; [done| |by eapply read_elements_weaken].
      intros component. unfold σ2. rewrite lookup_insert_ne, Hl' by done. done.
  - rewrite Hparse. exists l', σ1.
    split; [done|]. split; [done|]. split; [by eapply JSON_stringify_weaken|].
    split.
    + unfold footprint. rewrite Hparse. constructor; [by apply not_elem_of_dom|done].
    + unfold JSON_stringify. rewrite Hparse. destruct data; simpl in *. by subst.
Qed.

Lemma filterForICN_store_frame_witness :
  ∃ l' σ', filterForICN_store (H:=offline_host) ["seoul"] 0 sample_store = Some (l', σ')
    ∧ sample_store ⊆ σ'
    ∧ JSON_stringify σ' 0 = Some (listing [tokyo_cache; seoul_node])
    ∧ Forall (λ k, k ∉ dom sample_store) (footprint σ' l')
    ∧ JSON_stringify σ' l'
      = Some (filterForICN_with (H:=offline_host) ["seoul"]
                (listing [tokyo_cache; seoul_node])).
Proof.
  apply (filterForICN_store_frame (H:=offline_host) ["seoul"] sample_store 0
           (listing [tokyo_cache; seoul_node])).
  vm_compute. reflexivity.
Defined.

(** * Further properties of the worker *)

(** ** Histories *)

Lemma traces_ret {A} (T : list event → Prop) (a : A) : T [] → traces T (mret a).
Proof. intros HT h. exists []. by rewrite app_nil_r. Qed.

Lemma traces_throw {A} (T : list event → Prop) (e : exn) :
  T [] → traces T (throw (A:=A) e).
Proof. intros HT h. exists []. by rewrite app_nil_r. Qed.

Lemma traces_lift {A} (T : list event → Prop) (o : outcome A) :
  T [] → traces T (lift o).
Proof. intros HT h. exists []. by rewrite app_nil_r. Qed.

Lemma traces_console_error (T : list event → Prop) (label : string) (e : option exn) :
  T [Logged label e] → traces T (console_error label e).
Proof. intros HT h. by exists [Logged label e]. Qed.

Lemma traces_fetch `{Host} (T : list event → Prop) (rq : request) :
  T [Fetched rq] → traces T (fetch rq).
Proof.
  intros HT h. exists [Fetched rq]. unfold fetch. by destruct (network h rq).
Qed.

Lemma traces_bind {A B} (T1 T2 T : list event → Prop) (m : M A) (f : A → M B) :
  traces T1 m → (∀ a, traces T2 (f a)) →
  (∀ l, T1 l → T l) → (∀ l1 l2, T1 l1 → T2 l2 → T (l1 ++ l2)) →
  traces T (m ≫= f).
Proof.
  intros Hm Hf Hthrown Hboth h. unfold mbind, M_bind.
  destruct (Hm h) as (l1 & E1 & HT1). destruct (m h) as [[a|e] h1]; simpl in E1; subst h1.
  - destruct (Hf a (h ++ l1)) as (l2 & E2 & HT2).
    exists (l1 ++ l2). rewrite E2. split; [by rewrite app_assoc | by apply Hboth].
  - exists l1. split; [done | by apply Hthrown].
Qed.

Lemma traces_try_catch {A} (T1 T2 T : list event → Prop) (body : M A)
    (handler : exn → M A) :
  traces T1 body → (∀ e, traces T2 (handler e)) →
  (∀ l, T1 l → T l) → (∀ l1 l2, T1 l1 → T2 l2 → T (l1 ++ l2)) →
  traces T (try_catch body handler).
Proof.
  intros Hm Hf Hreturned Hboth h. unfold try_catch.
  destruct (Hm h) as (l1 & E1 & HT1). destruct (body h) as [[a|e] h1]; simpl in E1; subst h1.
  - exists l1. split; [done | by apply Hreturned].
  - destruct (Hf e (h ++ l1)) as (l2 & E2 & HT2).
    exists (l1 ++ l2). rewrite E2. split; [by rewrite app_assoc | by apply Hboth].
Qed.

Lemma traces_weaken {A} (T1 T : list event → Prop) (m : M A) :
  traces T1 m → (∀ l, T1 l → T l) → traces T m.
Proof. intros Hm HT h. destruct (Hm h) as (l & E & Hl). eauto. Qed.

Lemma posts_app (l1 l2 : list event) : posts (l1 ++ l2) = posts l1 + posts l2.
Proof. unfold posts. by rewrite List.filter_app, length_app. Qed.

(** ** The sender *)

Lemma truthy_Some (o : option string) :
  truthy o = true ↔ ∃ s, o = Some s ∧ s ≠ "".
Proof.
  destruct o as [s|]; simpl.
  - destruct (String.eqb_spec s ""); split; try done.
    + intros (s' & [= <-] & Hne). done.
    + intros _. by exists s.
  - split; [done | by intros (s & ? & _)].
Qed.

(** The runs of the sender, case by case. *)
Lemma sendSlackNotification_cases `{Host} (env : gmap string string) (data : Doc.t)
    (type : string) (h : list event) :
  let run := sendSlackNotification env data type h in
  let caught e := Logged "Error sending Slack notification:" (Some e) in
  (truthy (env !! SLACK_CONFIG.webhookEnvKey) = false
   ∧ run = (Returned false, h ++ [Logged "Slack webhook URL not configured" None]))
  ∨ ∃ url, env !! SLACK_CONFIG.webhookEnvKey = Some url ∧ url ≠ "" ∧
      ((∃ e, formatSlackPayload (toISOString_now h) data type = Thrown e
             ∧ run = (Returned false, h ++ [caught e]))
       ∨ ∃ payload,
           formatSlackPayload (toISOString_now h) data type = Returned payload ∧
           ((∃ e, network h (POST url payload) = Rejected e
                  ∧ run = (Returned false, h ++ [Fetched (POST url payload); caught e]))
            ∨ ∃ r, network h (POST url payload) = Responded r ∧
                   ((Response.ok r = false
                     ∧ run = (Returned false,
                              h ++ [Fetched (POST url payload);
                                    caught (failure "send Slack notification" r)]))
                    ∨ (Response.ok r = true
                       ∧ run = (Returned true, h ++ [Fetched (POST url payload)]))))).
Proof.
  intros run caught. subst run. unfold sendSlackNotification.
  destruct (truthy (env !! SLACK_CONFIG.webhookEnvKey)) eqn:Hurl.
  - right. apply truthy_Some in Hurl as (url & Hurl & Hne). rewrite Hurl.
    exists url. split; [done|]. split; [done|]. unfold_M. simpl.
    destruct (formatSlackPayload (toISOString_now h) data type) as [payload|e];
      [|left; by exists e].
    right. exists payload. split; [done|].
    destruct (network h (POST url payload)) as [e|r] eqn:Hnet;
      [left; exists e; by rewrite <- app_assoc|].
    right. exists r. split; [done|].
    destruct (Response.ok r); simpl; [by right|left].
    by rewrite <- app_assoc.
  - left. split; [done|]. by unfold_M.
Qed.

(** The sender returns, after at most one permitted request. *)
Lemma sendSlackNotification_run `{Host} (env : gmap string string)
    (data : Doc.t) (type : string) (h : list event) :
  ∃ sent new,
    sendSlackNotification env data type h = (Returned sent, h ++ new)
    ∧ (posts new ≤ 1)%nat
    ∧ Forall (permitted env) new.
Proof.
  destruct (sendSlackNotification_cases env data type h)
    as [[_ ->]|(url & Hurl & Hne &
                 [(e & _ & ->)|(payload & _ &
                   [(e & _ & ->)|(r & _ & [[_ ->]|[_ ->]])])])];
    eexists _, _; (split; [reflexivity|]); (split; [compute; lia|]);
    repeat constructor; done.
Qed.


(** X2. Without a webhook URL in the environment (no entry, or the empty
    string) the sender returns [false] after logging that the URL is not
    configured: it formats nothing and makes no request, whatever the data
    and the type. *)
Theorem sendSlackNotification_unconfigured `{Host} (env : gmap string string)
    (data : Doc.t) (type : string) (h : list event) :
  env !! SLACK_CONFIG.webhookEnvKey = None
  ∨ env !! SLACK_CONFIG.webhookEnvKey = Some "" →
  sendSlackNotification env data type h
  = (Returned false, h ++ [Logged "Slack webhook URL not configured" None]).
Proof.
  intros Henv.
  destruct (sendSlackNotification_cases env data type h)
    as [[_ ->]|(url & Hurl & Hne & _)]; [done|].
  destruct Henv; congruence.
Qed.

Lemma sendSlackNotification_unconfigured_witness :
  sendSlackNotification (H:=offline_host) ∅ all_operational "components" []
  = (Returned false, [] ++ [Logged "Slack webhook URL not configured" None]).
Proof.
  apply (sendSlackNotification_unconfigured (H:=offline_host) ∅ all_operational
           "components" []).
  left. reflexivity.
Defined.

(** X3. The sender returns [true] exactly when the environment holds a
    non-empty webhook URL, the payload is formatted without error, and the
    webhook answers the [POST] of that payload with a status in 200-299; the
    run then consists of that one request. *)
Theorem sendSlackNotification_true_iff `{Host} (env : gmap string string)
    (data : Doc.t) (type : string) (h h' : list event) :
  sendSlackNotification env data type h = (Returned true, h') ↔
  ∃ url payload r,
    env !! SLACK_CONFIG.webhookEnvKey = Some url ∧ url ≠ ""
    ∧ formatSlackPayload (toISOString_now h) data type = Returned payload
    ∧ network h (POST url payload) = Responded r
    ∧ (200 ≤ Response.status r ≤ 299)%nat
    ∧ h' = h ++ [Fetched (POST url payload)].
Proof.
  assert (∀ url payload r,
            env !! SLACK_CONFIG.webhookEnvKey = Some url → url ≠ "" →
            formatSlackPayload (toISOString_now h) data type = Returned payload →
            network h (POST url payload) = Responded r →
            (200 ≤ Response.status r ≤ 299)%nat →
            sendSlackNotification env data type h
            = (Returned true, h ++ [Fetched (POST url payload)])) as Hsuccess.
  { intros url payload r Hurl Hne Hf Hnet Hok%Response_ok_true.
    destruct (sendSlackNotification_cases env data type h)
      as [[Hno Hrun]|(url' & Hurl' & _ &
                   [(e & Hf' & Hrun)|(payload' & Hf' &
                     [(e & Hnet' & Hrun)|(r' & Hnet' & [[Hok' Hrun]|[Hok' Hrun]])])])].
    - assert (truthy (env !! SLACK_CONFIG.webhookEnvKey) = true)
        by (apply truthy_Some; eauto). congruence.
    - congruence.
    - assert (url' = url) as -> by congruence.
      assert (payload' = payload) as -> by congruence. congruence.
    - assert (url' = url) as -> by congruence.
      assert (payload' = payload) as -> by congruence.
      assert (r' = r) as -> by congruence. congruence.
    - assert (url' = url) as -> by congruence.
      assert (payload' = payload) as -> by congruence. exact Hrun. }
  split.
  - intros Htrue.
    destruct (sendSlackNotification_cases env data type h)
      as [[Hno Hrun]|(url & Hurl & Hne &
                   [(e & Hf & Hrun)|(payload & Hf &
                     [(e & Hnet & Hrun)|(r & Hnet & [[Hok Hrun]|[Hok Hrun]])])])];
      rewrite Hrun in Htrue; try done.
    injection Htrue as <-. exists url, payload, r.
    by rewrite <- Response_ok_true.
  - intros (url & payload & r & Hurl & Hne & Hf & Hnet & Hok & ->).
    by eapply Hsuccess.
Qed.

(** X4. A delivery failure is logged and swallowed: when the webhook
    answers the [POST] with a status outside 200-299, the sender logs the
    error [Failed to send Slack notification: <status> <statusText>] and
    returns [false]. *)
Theorem sendSlackNotification_delivery_failure `{Host} (env : gmap string string)
    (data : Doc.t) (type : string) (h : list event) (url : string)
    (payload : Payload.t) (r : Response.t) :
  env !! SLACK_CONFIG.webhookEnvKey = Some url → url ≠ "" →
  formatSlackPayload (toISOString_now h) data type = Returned payload →
  network h (POST url payload) = Responded r →
  ¬ (200 ≤ Response.status r ≤ 299)%nat →
  sendSlackNotification env data type h
  = (Returned false,
     h ++ [Fetched (POST url payload);
           Logged "Error sending Slack notification:"
             (Some (Error ("Failed to send Slack notification: "
                           +:+ pretty (Response.status r) +:+ " "
                           +:+ Response.statusText r)))]).
Proof.
  intros Hurl Hne Hf Hnet Hok%Response_ok_false.
  destruct (sendSlackNotification_cases env data type h)
    as [[Hno Hrun]|(url' & Hurl' & _ &
                 [(e & Hf' & Hrun)|(payload' & Hf' &
                   [(e & Hnet' & Hrun)|(r' & Hnet' & [[Hok' Hrun]|[Hok' Hrun]])])])].
  - assert (truthy (env !! SLACK_CONFIG.webhookEnvKey) = true)
      by (apply truthy_Some; eauto). congruence.
  - congruence.
  - assert (url' = url) as -> by congruence.
    assert (payload' = payload) as -> by congruence. congruence.
  - assert (url' = url) as -> by congruence.
    assert (payload' = payload) as -> by congruence.
    assert (r' = r) as -> by congruence. exact Hrun.
  - assert (url' = url) as -> by congruence.
    assert (payload' = payload) as -> by congruence.
    assert (r' = r) as -> by congruence. congruence.
Qed.

Lemma sendSlackNotification_delivery_failure_witness :
  ∃ payload,
    sendSlackNotification (H:=offline_host) configured (listing [seoul_node])
      "components" []
    = (Returned false,
       [] ++ [Fetched (POST "https://hooks.slack.example/T000" payload);
              Logged "Error sending Slack notification:"
                (Some (Error "Failed to send Slack notification: 503 Service Unavailable"))]).
Proof.
  eexists.
  apply (sendSlackNotification_delivery_failure (H:=offline_host) configured
           (listing [seoul_node]) "components" []
           "https://hooks.slack.example/T000" _
           {| Response.status := 503; Response.statusText := "Service Unavailable";
              Response.body := None |}).
  - reflexivity.
  - intros [=].
  - reflexivity.
  - reflexivity.
  - simpl. lia.
Defined.

(** ** The checks *)

(** The sender returns, leaving some history. *)
Lemma sendSlackNotification_returns `{Host} (env : gmap string string) (data : Doc.t)
    (type : string) (h : list event) :
  ∃ sent,
    sendSlackNotification env data type h
    = (Returned sent, (sendSlackNotification env data type h).2).
Proof.
  destruct (sendSlackNotification_run env data type h)
    as (sent & new & Hrun & _).
  exists sent. by rewrite Hrun.
Qed.

Section Checks.
Context `{Host}.

Lemma checkICNComponents_returns (env : gmap string string) (h h1 : list event)
    (d : Doc.t) :
  fetchICNComponentsStatus h = (Returned d, h1) →
  NotifyOnIssues.checkICNComponents env h
  = (Returned (componentsReport d),
     if bool_decide (hasIssues d = Some true)
     then (sendSlackNotification env d "components" h1).2 else h1)
  ∧ NotifyAlways.checkICNComponents env h
    = (Returned (componentsReport d),
       (sendSlackNotification env d "components" h1).2).
Proof.
  intros Hfetch.
  destruct (sendSlackNotification_returns env d "components" h1) as [sent Hsend].
  unfold NotifyOnIssues.checkICNComponents, NotifyAlways.checkICNComponents.
  unfold try_catch, mbind, M_bind, mret, M_ret. rewrite Hfetch. cbv beta iota zeta.
  split.
  - case_bool_decide; [|done]. by rewrite Hsend.
  - by rewrite Hsend.
Qed.

Lemma checkUnresolvedIncidents_returns (env : gmap string string) (h h1 : list event)
    (d : Doc.t) :
  fetchUnresolvedIncidents h = (Returned d, h1) →
  checkUnresolvedIncidents env h
  = (Returned (incidentsReport d),
     match Doc.incidents d with
     | Some (_ :: _) => (sendSlackNotification env d "incidents" h1).2
     | _ => h1
     end).
Proof.
  intros Hfetch.
  destruct (sendSlackNotification_returns env d "incidents" h1) as [sent Hsend].
  unfold checkUnresolvedIncidents, incidentsReport.
  unfold try_catch, mbind, M_bind, mret, M_ret. rewrite Hfetch. cbv beta iota zeta.
  destruct (Doc.incidents d) as [[|incident incidents]|]; [done| |done].
  by rewrite Hsend.
Qed.

Lemma checkUnresolvedIncidents_rethrows (env : gmap string string) (h h1 : list event)
    (e : exn) :
  fetchUnresolvedIncidents h = (Thrown e, h1) →
  checkUnresolvedIncidents env h
  = (Thrown e, h1 ++ [Logged "Error checking unresolved incidents:" (Some e)]).
Proof.
  intros Hf. unfold checkUnresolvedIncidents.
  erewrite try_catch_thrown; [|by apply bind_thrown]. by unfold_M.
Qed.
End Checks.

(** X5. The outcome of the components check does not depend on the
    delivery: once the snapshot [d] is fetched, both versions return the
    report of [d] (status [success], [hasIssues] of [d], [d] itself),
    whatever the sender does.  The version that notifies on issues runs
    the sender only when [hasIssues] is [true], and otherwise adds nothing
    to the history; the other version always runs it. *)
Theorem checkICNComponents_after_fetch `{Host} (env : gmap string string)
    (h h1 : list event) (d : Doc.t) :
  fetchICNComponentsStatus h = (Returned d, h1) →
  let sent := (sendSlackNotification env d "components" h1).2 in
  NotifyOnIssues.checkICNComponents env h
  = (Returned (componentsReport d), if bool_decide (hasIssues d = Some true) then sent else h1)
  ∧ NotifyAlways.checkICNComponents env h = (Returned (componentsReport d), sent)
  ∧ (hasIssues d ≠ Some true →
     NotifyOnIssues.checkICNComponents env h = (Returned (componentsReport d), h1)).
Proof.
  intros Hfetch sent.
  destruct (checkICNComponents_returns env h h1 d Hfetch) as [Hon Halways].
  split; [done|]. split; [done|].
  intros Hno. by rewrite Hon, bool_decide_eq_false_2.
Qed.

Lemma checkICNComponents_after_fetch_witness :
  let host := ascii_host (online (listing [icn_load_balancer]) all_operational) in
  let d := filterForICN (H:=host) (combine all_operational (listing [icn_load_balancer])) in
  let h1 := [Fetched (GET ENDPOINTS.components);
             Fetched (GET (API_BASE_URL +:+ "/status.json"))] in
  let sent := (sendSlackNotification (H:=host) configured d "components" h1).2 in
  NotifyOnIssues.checkICNComponents (H:=host) configured []
  = (Returned (componentsReport d), if bool_decide (hasIssues d = Some true) then sent else h1)
  ∧ NotifyAlways.checkICNComponents (H:=host) configured []
    = (Returned (componentsReport d), sent)
  ∧ (hasIssues d ≠ Some true →
     NotifyOnIssues.checkICNComponents (H:=host) configured []
     = (Returned (componentsReport d), h1)).
Proof.
  intros host d h1.
  apply (checkICNComponents_after_fetch (H:=host) configured [] h1 d).
  reflexivity.
Defined.

(** X6. Once the incidents document [d] is fetched, the incidents check
    returns the report of [d], whose count is the number of incidents (0
    when the list is absent), whatever the sender does; it runs the sender
    only when the list has an incident, and otherwise adds nothing to the
    history. *)
Theorem checkUnresolvedIncidents_after_fetch `{Host} (env : gmap string string)
    (h h1 : list event) (d : Doc.t) :
  fetchUnresolvedIncidents h = (Returned d, h1) →
  ∃ h2,
    checkUnresolvedIncidents env h = (Returned (incidentsReport d), h2)
    ∧ IncidentsReport.incidentsCount (incidentsReport d)
      = length (default [] (Doc.incidents d))
    ∧ (Doc.incidents d = None ∨ Doc.incidents d = Some [] → h2 = h1)
    ∧ (∀ incident incidents, Doc.incidents d = Some (incident :: incidents) →
       h2 = (sendSlackNotification env d "incidents" h1).2).
Proof.
  intros Hfetch. rewrite (checkUnresolvedIncidents_returns env h h1 d Hfetch).
  eexists. split; [done|]. split; [done|]. split.
  - by intros [->| ->].
  - by intros incident incidents ->.
Qed.

Lemma checkUnresolvedIncidents_after_fetch_witness :
  let host := ascii_host (online (unresolved []) all_operational) in
  ∃ h2,
    checkUnresolvedIncidents (H:=host) configured []
    = (Returned (incidentsReport (unresolved [])), h2)
    ∧ IncidentsReport.incidentsCount (incidentsReport (unresolved []))
      = length (default [] (Doc.incidents (unresolved [])))
    ∧ (Doc.incidents (unresolved []) = None ∨ Doc.incidents (unresolved []) = Some [] →
       h2 = [Fetched (GET ENDPOINTS.incidents)])
    ∧ (∀ incident incidents,
         Doc.incidents (unresolved []) = Some (incident :: incidents) →
         h2 = (sendSlackNotification (H:=host) configured (unresolved []) "incidents"
                 [Fetched (GET ENDPOINTS.incidents)]).2).
Proof.
  intros host.
  apply (checkUnresolvedIncidents_after_fetch (H:=host) configured []
           [Fetched (GET ENDPOINTS.incidents)] (unresolved [])).
  reflexivity.
Defined.

(** ** What the worker requests *)

Lemma read_only_nil (env : gmap string string) : read_only env [].
Proof. by split. Qed.

Lemma read_only_app (env : gmap string string) (l1 l2 : list event) :
  read_only env l1 → read_only env l2 → read_only env (l1 ++ l2).
Proof.
  intros [H1 P1] [H2 P2]. split; [by apply Forall_app|].
  by rewrite posts_app, P1, P2.
Qed.

Lemma read_only_log (env : gmap string string) (label : string) (e : option exn) :
  read_only env [Logged label e].
Proof. split; [by repeat constructor | done]. Qed.

Lemma read_only_get (env : gmap string string) (path : string) :
  read_only env [Fetched (GET (API_BASE_URL +:+ path))].
Proof. split; [|done]. repeat constructor. by exists path. Qed.

Lemma posts_at_most_read_only (n : nat) (env : gmap string string) (l : list event) :
  read_only env l → posts_at_most n env l.
Proof. intros [Hl Hp]. split; [done|]. rewrite Hp. lia. Qed.

Lemma posts_at_most_app (n1 n2 : nat) (env : gmap string string) (l1 l2 : list event) :
  posts_at_most n1 env l1 → posts_at_most n2 env l2 →
  posts_at_most (n1 + n2) env (l1 ++ l2).
Proof.
  intros [H1 P1] [H2 P2]. split; [by apply Forall_app|].
  rewrite posts_app. lia.
Qed.

Lemma posts_at_most_app_read_only (n : nat) (env : gmap string string)
    (l1 l2 : list event) :
  posts_at_most n env l1 → read_only env l2 → posts_at_most n env (l1 ++ l2).
Proof.
  intros [H1 P1] [H2 P2]. split; [by apply Forall_app|].
  rewrite posts_app. lia.
Qed.

Lemma read_only_app_posts_at_most (n : nat) (env : gmap string string)
    (l1 l2 : list event) :
  read_only env l1 → posts_at_most n env l2 → posts_at_most n env (l1 ++ l2).
Proof.
  intros [H1 P1] [H2 P2]. split; [by apply Forall_app|].
  rewrite posts_app. lia.
Qed.

(** Sequencing of computations whose events satisfy a property closed
    under concatenation. *)
Lemma traces_bind_closed {A B} (T : list event → Prop) (m : M A) (f : A → M B) :
  (∀ l1 l2, T l1 → T l2 → T (l1 ++ l2)) →
  traces T m → (∀ a, traces T (f a)) → traces T (m ≫= f).
Proof. intros Happ Hm Hf. by eapply traces_bind. Qed.

Lemma traces_try_catch_closed {A} (T : list event → Prop) (body : M A)
    (handler : exn → M A) :
  (∀ l1 l2, T l1 → T l2 → T (l1 ++ l2)) →
  traces T body → (∀ e, traces T (handler e)) → traces T (try_catch body handler).
Proof. intros Happ Hm Hf. by eapply traces_try_catch. Qed.

Ltac read_only_step env :=
  first
    [ apply traces_ret, read_only_nil
    | apply traces_throw, read_only_nil
    | apply traces_lift, read_only_nil
    | apply traces_console_error, read_only_log
    | apply traces_fetch, (read_only_get env)
    | apply traces_bind_closed; [apply read_only_app| |intros ?]
    | apply traces_try_catch_closed; [apply read_only_app| |intros ?]
    | match goal with |- traces _ (if ?b then _ else _) => destruct b end ].

Section Requests.
Context `{Host}.

Lemma upstream_read_only_lemma (env : gmap string string) :
  traces (read_only env) fetchICNComponentsStatus
  ∧ traces (read_only env) fetchUnresolvedIncidents.
Proof.
  split.
  - unfold fetchICNComponentsStatus, fetchICNComponentsStatus_with.
    repeat read_only_step env.
  - unfold fetchUnresolvedIncidents. repeat read_only_step env.
Qed.

(** X8. The status API is only read: every request made by
    [fetchICNComponentsStatus] and by [fetchUnresolvedIncidents], on any
    network and whether they return or throw, is a [GET] of a URL of the
    status API; they make no [POST]. *)
Theorem upstream_read_only (env : gmap string string) :
  traces (read_only env) fetchICNComponentsStatus
  ∧ traces (read_only env) fetchUnresolvedIncidents.
Proof. apply upstream_read_only_lemma. Qed.

(** X7. A check fails with its fetch, and with the same error, whatever
    the error (a response that is not ok, a rejected request, a body that
    does not parse): when the fetch throws [e], the check adds one log line
    to the history of the fetch and throws [e]; it does not run the
    sender, so that no request is made to the webhook.  This holds for
    both versions of the components check and for the incidents check. *)
Theorem checks_fail_with_fetch (env : gmap string string) (h h1 : list event)
    (e : exn) :
  (fetchICNComponentsStatus h = (Thrown e, h1) →
     let h2 := h1 ++ [Logged "Error checking ICN components status:" (Some e)] in
     NotifyOnIssues.checkICNComponents env h = (Thrown e, h2)
     ∧ NotifyAlways.checkICNComponents env h = (Thrown e, h2)
     ∧ ∃ new, h2 = h ++ new ∧ posts new = 0)
  ∧ (fetchUnresolvedIncidents h = (Thrown e, h1) →
     let h2 := h1 ++ [Logged "Error checking unresolved incidents:" (Some e)] in
     checkUnresolvedIncidents env h = (Thrown e, h2)
     ∧ ∃ new, h2 = h ++ new ∧ posts new = 0).
Proof.
  destruct (upstream_read_only_lemma env) as [Hc Hi]. split.
  - intros Hf h2.
    destruct (checkICNComponents_rethrows env h h1 e Hf) as [H1 H2].
    split; [done|]. split; [done|].
    destruct (Hc h) as (new & Hnew & _ & Hposts). rewrite Hf in Hnew. simpl in Hnew.
    exists (new ++ [Logged "Error checking ICN components status:" (Some e)]).
    subst h2. rewrite Hnew, <- app_assoc. split; [done|].
    by rewrite posts_app, Hposts.
  - intros Hf h2. split; [by apply checkUnresolvedIncidents_rethrows|].
    destruct (Hi h) as (new & Hnew & _ & Hposts). rewrite Hf in Hnew. simpl in Hnew.
    exists (new ++ [Logged "Error checking unresolved incidents:" (Some e)]).
    subst h2. rewrite Hnew, <- app_assoc. split; [done|].
    by rewrite posts_app, Hposts.
Qed.
Lemma traces_send (env : gmap string string) (data : Doc.t) (type : string) :
  traces (posts_at_most 1 env) (sendSlackNotification env data type).
Proof.
  intros h.
  destruct (sendSlackNotification_run env data type h)
    as (sent & new & Hrun & Hposts & Hperm).
  exists new. rewrite Hrun. by split.
Qed.

Lemma traces_check {A B} (env : gmap string string) (fetched : M A)
    (notify : A → M unit) (report : A → B) (label : string) :
  traces (read_only env) fetched →
  (∀ a, traces (posts_at_most 1 env) (notify a)) →
  traces (posts_at_most 1 env)
    (try_catch (a ← fetched; notify a;; mret (report a))
       (λ error, console_error label (Some error);; throw error)).
Proof.
  intros Hfetched Hnotify.
  eapply traces_try_catch.
  - eapply (traces_bind (read_only env) (posts_at_most 1 env)); [done| | |].
    + intros a. eapply (traces_bind (posts_at_most 1 env) (read_only env)); [done| | |].
      * intros _. apply traces_ret, read_only_nil.
      * done.
      * apply posts_at_most_app_read_only.
    + apply posts_at_most_read_only.
    + apply read_only_app_posts_at_most.
  - intros e. repeat read_only_step env.
  - done.
  - apply posts_at_most_app_read_only.
Qed.

Lemma traces_send_unit (env : gmap string string) (data : Doc.t) (type : string) :
  traces (posts_at_most 1 env) (sendSlackNotification env data type;; mret tt).
Proof.
  eapply (traces_bind (posts_at_most 1 env) (read_only env));
    [apply traces_send| | |].
  - intros _. apply traces_ret, read_only_nil.
  - done.
  - apply posts_at_most_app_read_only.
Qed.

Lemma traces_unit (env : gmap string string) :
  traces (posts_at_most 1 env) (mret tt).
Proof. apply traces_ret, posts_at_most_read_only, read_only_nil. Qed.

(** X9. A check makes at most one request to the webhook, and every
    request it makes is a [GET] of the status API or a [POST] to the
    webhook URL of the environment; this holds on every network, whether
    the check returns or throws.  The scheduled handler of the version
    that notifies on issues makes at most one such [POST], that of the
    other version at most two. *)
Theorem checks_post_at_most_once (env : gmap string string) (cron : string) :
  traces (posts_at_most 1 env) (NotifyOnIssues.checkICNComponents env)
  ∧ traces (posts_at_most 1 env) (NotifyAlways.checkICNComponents env)
  ∧ traces (posts_at_most 1 env) (checkUnresolvedIncidents env)
  ∧ traces (posts_at_most 1 env) (NotifyOnIssues.scheduled cron env)
  ∧ traces (posts_at_most 2 env) (NotifyAlways.scheduled env).
Proof.
  destruct (upstream_read_only_lemma env) as [Hc Hi].
  assert (traces (posts_at_most 1 env) (NotifyOnIssues.checkICNComponents env)) as Hon.
  { unfold NotifyOnIssues.checkICNComponents.
    apply (traces_check env fetchICNComponentsStatus
             (λ d, if bool_decide (hasIssues d = Some true)
                   then sendSlackNotification env d "components";; mret tt
                   else mret tt) componentsReport); [done|].
    intros d. case_bool_decide; [apply traces_send_unit | apply traces_unit]. }
  assert (traces (posts_at_most 1 env) (NotifyAlways.checkICNComponents env)) as Halways.
  { unfold NotifyAlways.checkICNComponents.
    eapply traces_try_catch.
    - eapply (traces_bind (read_only env) (posts_at_most 1 env)); [done| | |].
      + intros d. eapply (traces_bind (posts_at_most 1 env) (read_only env));
          [apply traces_send| | |].
        * intros _. apply traces_ret, read_only_nil.
        * done.
        * apply posts_at_most_app_read_only.
      + apply posts_at_most_read_only.
      + apply read_only_app_posts_at_most.
    - intros e. repeat read_only_step env.
    - done.
    - apply posts_at_most_app_read_only. }
  assert (traces (posts_at_most 1 env) (checkUnresolvedIncidents env)) as Hinc.
  { unfold checkUnresolvedIncidents.
    apply (traces_check env fetchUnresolvedIncidents
             (λ d, match Doc.incidents d with
                   | Some (_ :: _) => sendSlackNotification env d "incidents";; mret tt
                   | _ => mret tt
                   end)
             (λ d, {| IncidentsReport.status := "success";
                      IncidentsReport.message := "Unresolved incidents checked";
                      IncidentsReport.incidentsCount :=
                        match Doc.incidents d with
                        | Some incidents => length incidents
                        | None => 0
                        end;
                      IncidentsReport.data := d |})); [done|].
    intros d. destruct (Doc.incidents d) as [[|??]|];
      [apply traces_unit | apply traces_send_unit | apply traces_unit]. }
  split; [done|]. split; [done|]. split; [done|]. split.
  - unfold NotifyOnIssues.scheduled. destruct (includes cron "*/6").
    + eapply (traces_bind (posts_at_most 1 env) (read_only env)); [done| | |].
      * intros _. apply traces_ret, read_only_nil.
      * done.
      * apply posts_at_most_app_read_only.
    + eapply (traces_bind (posts_at_most 1 env) (read_only env)); [done| | |].
      * intros _. apply traces_ret, read_only_nil.
      * done.
      * apply posts_at_most_app_read_only.
  - unfold NotifyAlways.scheduled.
    eapply (traces_bind (posts_at_most 1 env) (posts_at_most 1 env)); [done| | |].
    + intros _. eapply (traces_bind (posts_at_most 1 env) (read_only env)); [done| | |].
      * intros _. apply traces_ret, read_only_nil.
      * done.
      * apply posts_at_most_app_read_only.
    + intros l [Hl Hp]. split; [done|lia].
    + apply (posts_at_most_app 1 1).
Qed.
End Requests.

Lemma checks_fail_with_fetch_witness :
  let host := ascii_host garbled in
  NotifyOnIssues.checkICNComponents (H:=host) configured []
  = (Thrown SyntaxError,
     [Fetched (GET ENDPOINTS.components);
      Fetched (GET (API_BASE_URL +:+ "/status.json"));
      Logged "Error fetching ICN components status:" (Some SyntaxError)]
     ++ [Logged "Error checking ICN components status:" (Some SyntaxError)])
  ∧ checkUnresolvedIncidents (H:=host) configured []
    = (Thrown SyntaxError,
       [Fetched (GET ENDPOINTS.incidents);
        Logged "Error fetching unresolved incidents:" (Some SyntaxError)]
       ++ [Logged "Error checking unresolved incidents:" (Some SyntaxError)]).
Proof.
  intros host.
  destruct (checks_fail_with_fetch (H:=host) configured []
              [Fetched (GET ENDPOINTS.components);
               Fetched (GET (API_BASE_URL +:+ "/status.json"));
               Logged "Error fetching ICN components status:" (Some SyntaxError)]
              SyntaxError) as [Hcomponents _].
  destruct (checks_fail_with_fetch (H:=host) configured []
              [Fetched (GET ENDPOINTS.incidents);
               Logged "Error fetching unresolved incidents:" (Some SyntaxError)]
              SyntaxError) as [_ Hincidents].
  split.
  - destruct (Hcomponents eq_refl) as [Hcheck _]. exact Hcheck.
  - destruct (Hincidents eq_refl) as [Hcheck _]. exact Hcheck.
Defined.


(** ** The fetches *)

Section Fetches.
Context `{Host}.

Lemma fetchICNComponentsStatus_returned (h h' : list event) (d : Doc.t) :
  fetchICNComponentsStatus h = (Returned d, h') →
  ∃ r1 r2 c s,
    network h (GET ENDPOINTS.components) = Responded r1
    ∧ Response.ok r1 = true
    ∧ network (h ++ [Fetched (GET ENDPOINTS.components)])
        (GET (API_BASE_URL +:+ "/status.json")) = Responded r2
    ∧ Response.ok r2 = true
    ∧ Response.body r1 = Some c
    ∧ Response.body r2 = Some s
    ∧ d = filterForICN (combine s c)
    ∧ h' = h ++ [Fetched (GET ENDPOINTS.components);
                 Fetched (GET (API_BASE_URL +:+ "/status.json"))].
Proof.
  unfold fetchICNComponentsStatus, fetchICNComponentsStatus_with. unfold_M.
  destruct (network h (GET ENDPOINTS.components)) as [e|r1] eqn:N1; [done|].
  destruct (Response.ok r1) eqn:O1; simpl; [|done].
  destruct (network (h ++ [Fetched (GET ENDPOINTS.components)])
              (GET (API_BASE_URL +:+ "/status.json"))) as [e|r2] eqn:N2; [done|].
  destruct (Response.ok r2) eqn:O2; simpl; [|done].
  unfold Response.json.
  destruct (Response.body r1) as [c|] eqn:B1; simpl; [|done].
  destruct (Response.body r2) as [s|] eqn:B2; simpl; [|done].
  intros [= <- <-]. exists r1, r2, c, s.
  repeat (split; [done|]). by rewrite <- app_assoc.
Qed.

(** X10. Whenever [fetchICNComponentsStatus] returns, both requests were
    answered with a status in 200-299 and a body that parsed, the result is
    the filter of the merge of the two documents, and the history is that
    of the two [GET]s.  A rejected first request is logged and thrown
    without a second request; a rejected second request is logged and
    thrown after both; the bodies are parsed only after both requests, so
    that a body that does not parse makes it log and throw a [SyntaxError]
    after both [GET]s. *)
Theorem fetchICNComponentsStatus_outcomes (h : list event) :
  let get1 := Fetched (GET ENDPOINTS.components) in
  let get2 := Fetched (GET (API_BASE_URL +:+ "/status.json")) in
  let caught e := Logged "Error fetching ICN components status:" (Some e) in
  (∀ d h', fetchICNComponentsStatus h = (Returned d, h') →
     ∃ r1 r2 c s,
       network h (GET ENDPOINTS.components) = Responded r1
       ∧ (200 ≤ Response.status r1 ≤ 299)%nat
       ∧ network (h ++ [get1]) (GET (API_BASE_URL +:+ "/status.json")) = Responded r2
       ∧ (200 ≤ Response.status r2 ≤ 299)%nat
       ∧ Response.body r1 = Some c
       ∧ Response.body r2 = Some s
       ∧ d = filterForICN (combine s c)
       ∧ h' = h ++ [get1; get2])
  ∧ (∀ e, network h (GET ENDPOINTS.components) = Rejected e →
          fetchICNComponentsStatus h = (Thrown e, h ++ [get1; caught e]))
  ∧ (∀ r1 e,
       network h (GET ENDPOINTS.components) = Responded r1 →
       (200 ≤ Response.status r1 ≤ 299)%nat →
       network (h ++ [get1]) (GET (API_BASE_URL +:+ "/status.json")) = Rejected e →
       fetchICNComponentsStatus h = (Thrown e, h ++ [get1; get2; caught e]))
  ∧ (∀ r1 r2,
       network h (GET ENDPOINTS.components) = Responded r1 →
       (200 ≤ Response.status r1 ≤ 299)%nat →
       network (h ++ [get1]) (GET (API_BASE_URL +:+ "/status.json")) = Responded r2 →
       (200 ≤ Response.status r2 ≤ 299)%nat →
       Response.body r1 = None ∨ Response.body r2 = None →
       fetchICNComponentsStatus h
       = (Thrown SyntaxError, h ++ [get1; get2; caught SyntaxError])).
Proof.
  intros get1 get2 caught. split; [|split; [|split]].
  - intros d h' Hrun.
    destruct (fetchICNComponentsStatus_returned h h' d Hrun)
      as (r1 & r2 & c & s & N1 & O1 & N2 & O2 & B1 & B2 & Hd & Hh).
    exists r1, r2, c, s. by rewrite <- !Response_ok_true.
  - intros e N1.
    unfold fetchICNComponentsStatus, fetchICNComponentsStatus_with. unfold_M.
    rewrite N1. simpl. by rewrite <- app_assoc.
  - intros r1 e N1 O1%Response_ok_true N2.
    unfold fetchICNComponentsStatus, fetchICNComponentsStatus_with. unfold_M.
    rewrite N1, O1. simpl. fold get1. rewrite N2. simpl. by rewrite <- !app_assoc.
  - intros r1 r2 N1 O1%Response_ok_true N2 O2%Response_ok_true Hbody.
    unfold fetchICNComponentsStatus, fetchICNComponentsStatus_with. unfold_M.
    rewrite N1, O1. simpl. fold get1. rewrite N2, O2. simpl. unfold Response.json.
    destruct Hbody as [B|B].
    + rewrite B. simpl. by rewrite <- !app_assoc.
    + rewrite B. destruct (Response.body r1); simpl; by rewrite <- !app_assoc.
Qed.

(** X11. [fetchUnresolvedIncidents] returns exactly when the request is
    answered with a status in 200-299 and a body that parses; it returns
    that body as it is, after the one [GET].  A body that does not parse
    makes it log and throw a [SyntaxError], and a rejected request makes it
    log and throw the rejection. *)
Theorem fetchUnresolvedIncidents_outcomes (h : list event) :
  (∀ d h', fetchUnresolvedIncidents h = (Returned d, h') ↔
           ∃ r, network h (GET ENDPOINTS.incidents) = Responded r
                ∧ (200 ≤ Response.status r ≤ 299)%nat
                ∧ Response.body r = Some d
                ∧ h' = h ++ [Fetched (GET ENDPOINTS.incidents)])
  ∧ (∀ r, network h (GET ENDPOINTS.incidents) = Responded r →
          (200 ≤ Response.status r ≤ 299)%nat →
          Response.body r = None →
          fetchUnresolvedIncidents h
          = (Thrown SyntaxError,
             h ++ [Fetched (GET ENDPOINTS.incidents);
                   Logged "Error fetching unresolved incidents:" (Some SyntaxError)]))
  ∧ (∀ e, network h (GET ENDPOINTS.incidents) = Rejected e →
          fetchUnresolvedIncidents h
          = (Thrown e,
             h ++ [Fetched (GET ENDPOINTS.incidents);
                   Logged "Error fetching unresolved incidents:" (Some e)])).
Proof.
  unfold fetchUnresolvedIncidents. unfold_M.
  destruct (network h (GET ENDPOINTS.incidents)) as [e|r] eqn:N.
  - split; [|split].
    + intros d h'. split; [done | by intros (r & ? & _)].
    + done.
    + intros e' [= <-]. simpl. by rewrite <- app_assoc.
  - split; [|split; [|done]].
    + intros d h'. setoid_rewrite <- Response_ok_true.
      destruct (Response.ok r) eqn:O; simpl.
      * unfold Response.json. destruct (Response.body r) as [d'|] eqn:B; simpl.
        -- split.
           ++ intros [= <- <-]. by exists r.
           ++ intros (r' & [= <-] & _ & Hb & ->). congruence.
        -- split; [done|]. intros (r' & [= <-] & _ & Hb & _). congruence.
      * split; [done|]. intros (r' & [= <-] & Hok & _). congruence.
    + intros r' [= <-] Hok%Response_ok_true Hb. rewrite Hok. simpl.
      unfold Response.json. rewrite Hb. simpl. by rewrite <- app_assoc.
Qed.
End Fetches.

(** ** The snapshot *)


Lemma existsb_filter {A} (p q : A → bool) (l : list A) :
  existsb q (List.filter p l) = true → existsb q l = true.
Proof.
  induction l as [|x l IH]; [done|]. simpl.
  destruct (p x); simpl; rewrite ?orb_true_iff; [intros [?|?]|]; auto.
Qed.

Lemma filter_all_match `{Host} (K : list string) (cs : list Component.t) :
  Forall (Matches K) (List.filter (isICN K) cs).
Proof.
  apply Forall_forall. intros c Hin.
  apply list_elem_of_In, filter_In in Hin as [_ Hc]. by apply isICN_spec.
Qed.

(** X12. Every snapshot [fetchICNComponentsStatus] returns has a
    components list (never an absent one), and every component of it
    matches one of the configured keywords; so [hasIssues] of it is a
    boolean, never [undefined].  The same holds of the data and of
    [hasIssues] in every report the components check returns, in both
    versions. *)
Theorem fetched_snapshot_invariant `{Host} (h h' : list event) (d : Doc.t) :
  fetchICNComponentsStatus h = (Returned d, h') →
  (∃ cs, Doc.components d = Some cs ∧ Forall (Matches ICN_KEYWORDS) cs)
  ∧ (∃ b, hasIssues d = Some b)
  ∧ (∀ env h0 h1 r,
       NotifyOnIssues.checkICNComponents env h0 = (Returned r, h1)
       ∨ NotifyAlways.checkICNComponents env h0 = (Returned r, h1) →
       (∃ cs, Doc.components (ComponentsReport.data r) = Some cs
              ∧ Forall (Matches ICN_KEYWORDS) cs)
       ∧ ∃ b, ComponentsReport.hasIssues r = Some b).
Proof.
  assert (∀ h h' d, fetchICNComponentsStatus h = (Returned d, h') →
            ∃ cs, Doc.components d = Some cs ∧ Forall (Matches ICN_KEYWORDS) cs) as Hinv.
  { clear. intros h h' d Hrun.
    destruct (fetchICNComponentsStatus_returned h h' d Hrun)
      as (r1 & r2 & c & s & _ & _ & _ & _ & _ & _ & -> & _).
    eexists. split; [reflexivity|]. apply filter_all_match. }
  intros Hrun. split; [by eapply Hinv|]. split.
  - destruct (Hinv _ _ _ Hrun) as (cs & Hcs & _). unfold hasIssues. rewrite Hcs. eauto.
  - intros env h0 h1 r Hcheck.
    destruct (checkICNComponents_report env h0 h1 r Hcheck) as (Hissues & h2 & Hfetch).
    destruct (Hinv _ _ _ Hfetch) as (cs & Hcs & Hall).
    split; [by exists cs|]. rewrite Hissues. unfold hasIssues. rewrite Hcs. eauto.
Qed.

Lemma fetched_snapshot_invariant_witness :
  let host := ascii_host (online (listing [tokyo_cache; seoul_node]) all_operational) in
  (∃ cs, Doc.components
           (filterForICN (H:=host) (combine all_operational (listing [tokyo_cache; seoul_node])))
         = Some cs ∧ Forall (Matches (H:=host) ICN_KEYWORDS) cs)
  ∧ (∃ b, hasIssues
            (filterForICN (H:=host) (combine all_operational (listing [tokyo_cache; seoul_node])))
          = Some b)
  ∧ (∀ env h0 h1 r,
       NotifyOnIssues.checkICNComponents (H:=host) env h0 = (Returned r, h1)
       ∨ NotifyAlways.checkICNComponents (H:=host) env h0 = (Returned r, h1) →
       (∃ cs, Doc.components (ComponentsReport.data r) = Some cs
              ∧ Forall (Matches (H:=host) ICN_KEYWORDS) cs)
       ∧ ∃ b, ComponentsReport.hasIssues r = Some b).
Proof.
  intros host.
  apply (fetched_snapshot_invariant (H:=host) []
           [Fetched (GET ENDPOINTS.components);
            Fetched (GET (API_BASE_URL +:+ "/status.json"))]).
  reflexivity.
Defined.


(** X14. Filtering cannot create an issue: when [hasIssues] is true of the
    filtered snapshot it is true of the snapshot itself, and when it is
    false of the snapshot it is false of the filtered one.  [hasIssues] of
    the filtered snapshot is [undefined] exactly when the snapshot has no
    components list. *)
Theorem hasIssues_of_filtered `{Host} (K : list string) (data : Doc.t) :
  (hasIssues (filterForICN_with K data) = Some true → hasIssues data = Some true)
  ∧ (hasIssues data = Some false → hasIssues (filterForICN_with K data) = Some false)
  ∧ (hasIssues (filterForICN_with K data) = None ↔ Doc.components data = None).
Proof.
  unfold hasIssues, filterForICN_with.
  destruct (Doc.components data) as [cs|] eqn:Hcs; simpl; [|by rewrite Hcs].
  split; [|split; [|done]].
  - intros [= Hex]. f_equal. by eapply existsb_filter.
  - intros [= Hno]. f_equal. apply not_true_is_false. intros Hex.
    apply existsb_filter in Hex. congruence.
Qed.

Lemma hasIssues_of_filtered_witness :
  hasIssues (listing [tokyo_cache; seoul_node]) = Some true
  ∧ hasIssues (filterForICN_with (H:=offline_host) ["seoul"] (listing [icn_load_balancer]))
    = Some false.
Proof.
  destruct (hasIssues_of_filtered (H:=offline_host) ["seoul"]
              (listing [tokyo_cache; seoul_node])) as (Htrue & _ & _).
  destruct (hasIssues_of_filtered (H:=offline_host) ["seoul"]
              (listing [icn_load_balancer])) as (_ & Hfalse & _).
  split; [exact (Htrue eq_refl) | exact (Hfalse eq_refl)].
Defined.

(** ** The messages *)

Lemma forEach_pushComponent_lines (cs : list Component.t) (blocks : list Block) :
  (∀ c, c ∈ cs → is_Some (Component.status c)) →
  forEach pushComponent cs blocks = Returned (blocks ++ map componentLine cs).
Proof.
  revert blocks. induction cs as [|c cs IH]; intros blocks Hall.
  - by rewrite app_nil_r.
  - destruct (Hall c) as [status Hs]; [by left|].
    rewrite forEach_cons, (pushComponent_line _ _ _ Hs).
    change (Returned ?a ≫= ?f) with (f a).
    rewrite IH by (intros c' Hin; apply Hall; by right).
    rewrite <- app_assoc. do 2 f_equal.
    change (map componentLine (c :: cs)) with (componentLine c :: map componentLine cs).
    change ([?x] ++ ?l) with (x :: l). f_equal.
    unfold componentLine. by rewrite Hs.
Qed.

Lemma overallLine_spec (data : Doc.t) (blocks : list Block) :
  match Doc.status data with
  | Some status =>
      blocks ++ [SectionBlock ("*Overall Status:* "
                               +:+ or_else (Status.description status) "Unknown")]
  | None => blocks
  end = blocks ++ overallLine data.
Proof.
  unfold overallLine. destruct (Doc.status data) as [status|]; [|by rewrite app_nil_r].
  destruct (Status.description status) as [description|]; [|done].
  simpl. by destruct description.
Qed.

(** X15. When every component has a status, the components message holds
    one line per component, in the order of the list: after the header,
    the divider and the overall status come the title, the line of each
    component, and the timestamp. *)
Theorem formatComponentsPayload_lines (timestamp : string) (data : Doc.t)
    (cs : list Component.t) :
  Doc.components data = Some cs → cs ≠ [] →
  (∀ c, c ∈ cs → is_Some (Component.status c)) →
  formatComponentsPayload timestamp data
  = Returned
      {| Payload.blocks :=
           [HeaderBlock "🌐 Cloudflare ICN (Seoul) Status Update"; DividerBlock]
           ++ overallLine data
           ++ [SectionBlock "*ICN Components:*"]
           ++ map componentLine cs
           ++ [ContextBlock ("Last updated: " +:+ timestamp)];
         Payload.text := "Cloudflare ICN (Seoul) Status Update" |}.
Proof.
  intros Hcs Hne Hall. unfold formatComponentsPayload.
  rewrite overallLine_spec, Hcs.
  destruct cs as [|c cs]; [done|].
  rewrite forEach_pushComponent_lines by done.
  change (Returned ?a ≫= ?f) with (f a). cbv beta zeta.
  by rewrite <- !app_assoc.
Qed.

Lemma formatComponentsPayload_lines_witness :
  formatComponentsPayload "T" (listing [tokyo_cache; seoul_node])
  = Returned
      {| Payload.blocks :=
           [HeaderBlock "🌐 Cloudflare ICN (Seoul) Status Update"; DividerBlock]
           ++ overallLine (listing [tokyo_cache; seoul_node])
           ++ [SectionBlock "*ICN Components:*"]
           ++ map componentLine [tokyo_cache; seoul_node]
           ++ [ContextBlock ("Last updated: " +:+ "T")];
         Payload.text := "Cloudflare ICN (Seoul) Status Update" |}.
Proof.
  apply (formatComponentsPayload_lines "T" (listing [tokyo_cache; seoul_node])
           [tokyo_cache; seoul_node]).
  - reflexivity.
  - intros [=].
  - intros c Hc. apply elem_of_cons in Hc as [->|Hc]; [by eexists|].
    apply list_elem_of_singleton in Hc as ->. by eexists.
Defined.

(** X16. With no components (the list absent or empty) the components
    message never fails: it holds the notice [No ICN components found] in
    place of the lines.  The line of the overall status is left out when
    the document has no status, and reads [Unknown] when the status has no
    description or an empty one. *)
Theorem formatComponentsPayload_no_components (timestamp : string) (data : Doc.t) :
  Doc.components data = None ∨ Doc.components data = Some [] →
  formatComponentsPayload timestamp data
  = Returned
      {| Payload.blocks :=
           [HeaderBlock "🌐 Cloudflare ICN (Seoul) Status Update"; DividerBlock]
           ++ overallLine data
           ++ [SectionBlock "_No ICN components found_";
               ContextBlock ("Last updated: " +:+ timestamp)];
         Payload.text := "Cloudflare ICN (Seoul) Status Update" |}
  ∧ (Doc.status data = None → overallLine data = [])
  ∧ (∀ status, Doc.status data = Some status →
       Status.description status = None ∨ Status.description status = Some "" →
       overallLine data = [SectionBlock "*Overall Status:* Unknown"])
  ∧ (∀ status description, Doc.status data = Some status →
       Status.description status = Some description → description ≠ "" →
       overallLine data = [SectionBlock ("*Overall Status:* " +:+ description)]).
Proof.
  intros Hcs. split; [|split; [|split]].
  - unfold formatComponentsPayload. rewrite overallLine_spec.
    destruct Hcs as [-> | ->]; change (Returned ?a ≫= ?f) with (f a); cbv beta zeta;
      by rewrite <- !app_assoc.
  - unfold overallLine. by intros ->.
  - unfold overallLine. by intros status -> [-> | ->].
  - unfold overallLine. intros status description -> -> Hne. by destruct description.
Qed.

Lemma formatComponentsPayload_no_components_witness :
  formatComponentsPayload "T" all_operational
  = Returned
      {| Payload.blocks :=
           [HeaderBlock "🌐 Cloudflare ICN (Seoul) Status Update"; DividerBlock]
           ++ overallLine all_operational
           ++ [SectionBlock "_No ICN components found_";
               ContextBlock ("Last updated: " +:+ "T")];
         Payload.text := "Cloudflare ICN (Seoul) Status Update" |}.
Proof.
  destruct (formatComponentsPayload_no_components "T" all_operational) as [Hrun _].
  - left. reflexivity.
  - exact Hrun.
Defined.

(** X17. The glyph of an incident status is looked up after lowercasing:
    two statuses with the same lowercase form get the same glyph.  The
    result is always one of the six glyphs, and it is the fallback glyph
    exactly when the status is absent or empty or its lowercase form is
    none of the five known tokens; no status makes the lookup fail. *)
Theorem getStatusEmoji_table `{Host} (status : option string) :
  getStatusEmoji status ∈ ["🔍"; "🔎"; "👀"; "✅"; "📝"; "⚠️"]
  ∧ (getStatusEmoji status = "⚠️" ↔
     truthy status = false
     ∨ toLowerCase (default "" status)
       ∉ ["investigating"; "identified"; "monitoring"; "resolved"; "postmortem"])
  ∧ (∀ s t, s ≠ "" → t ≠ "" → toLowerCase s = toLowerCase t →
            getStatusEmoji (Some s) = getStatusEmoji (Some t)).
Proof.
  split; [|split].
  - unfold getStatusEmoji. destruct (truthy status); simpl;
      repeat case_bool_decide;
      repeat (first [apply list_elem_of_here | apply list_elem_of_further]).
  - unfold getStatusEmoji. destruct (truthy status); simpl; [|split; [by left | done]].
    repeat case_bool_decide; (split; [try done|]).
    all: try (intros [?|Hnot]; [done|]; exfalso; apply Hnot;
              match goal with Heq : toLowerCase _ = _ |- _ => rewrite Heq end;
              repeat (first [apply list_elem_of_here | apply list_elem_of_further])).
    + intros _. right. intros Hin.
      repeat (apply elem_of_cons in Hin as [?|Hin]; [congruence|]).
      by apply elem_of_nil in Hin.
    + done.
  - intros s t Hs Ht Heq. unfold getStatusEmoji, truthy.
    destruct (String.eqb_spec s ""); [done|].
    destruct (String.eqb_spec t ""); [done|].
    simpl. by rewrite Heq.
Qed.

(** ** The HTTP handler *)

Lemma endsWith_unfold (s k : string) :
  endsWith s k =
  String.eqb s k ||
  match s with
  | EmptyString => false
  | String _ s' => endsWith s' k
  end.
Proof. by destruct s. Qed.

Lemma endsWith_spec (s k : string) :
  endsWith s k = true ↔ ∃ a, s = a +:+ k.
Proof.
  split.
  - induction s as [|c s IH]; rewrite endsWith_unfold, orb_true_iff.
    + intros [Heq%String.eqb_eq|?]; [|done]. by exists "".
    + intros [Heq%String.eqb_eq|Hs]; [by exists ""|].
      destruct (IH Hs) as [a ->]. by exists (String c a).
  - intros [a ->]. induction a as [|c a IH]; rewrite endsWith_unfold, orb_true_iff.
    + left. apply String.eqb_refl.
    + right. by rewrite append_cons.
Qed.

Lemma corsHeaders_json : corsHeaders ⊆ <["Content-Type" := "application/json"]> corsHeaders.
Proof. by apply insert_subseteq. Qed.

Lemma corsHeaders_text : corsHeaders ⊆ <["Content-Type" := "text/plain"]> corsHeaders.
Proof. by apply insert_subseteq. Qed.

(** A route that runs [m] and replies with its result as JSON. *)
Lemma route_returned {A} (m : M A) (g : A → json_body) (h h1 : list event)
    (reply : Reply.t) :
  (a ← m; mret (json_reply 200 (g a))) h = (Returned reply, h1) →
  ∃ a, m h = (Returned a, h1) ∧ reply = json_reply 200 (g a).
Proof.
  intros (a & h2 & Hm & Hret)%bind_inv_returned.
  injection Hret as <- <-. eauto.
Qed.

Lemma json_reply_well_formed (status : nat) (value : json_body) :
  status ∈ [200; 405; 500] → well_formed_reply (json_reply status value).
Proof. intros Hs. split; [apply corsHeaders_json | done]. Qed.

Section Handlers.
Context `{Host}.

(** The replies to methods other than [GET], in both versions. *)
Lemma fetch_other_methods (request : Request.t) (env : gmap string string)
    (h : list event) :
  Request.method request ≠ "GET" →
  let reply :=
    if bool_decide (Request.method request = "OPTIONS")
    then {| Reply.status := 200; Reply.headers := corsHeaders; Reply.body := NoBody |}
    else {| Reply.status := 405;
            Reply.headers := <["Content-Type" := "text/plain"]> corsHeaders;
            Reply.body := TextBody "Method not allowed" |} in
  OnIssuesHandler.fetch request env h = (Returned reply, h)
  ∧ AlwaysHandler.fetch request env h = (Returned reply, h).
Proof.
  intros Hm. unfold OnIssuesHandler.fetch, AlwaysHandler.fetch.
  case_bool_decide; [done|]. by rewrite bool_decide_eq_true_2.
Qed.

(** The handler of a [GET] is the [try]/[catch] around its routes. *)
Lemma fetch_get_caught (body : M Reply.t) (h : list event) :
  ∃ reply h',
    try_catch body
      (λ error,
         console_error "Error processing request:" (Some error);;
         mret (json_reply 500
                 (ErrorJson "Failed to process request" (exn_message error)))) h
    = (Returned reply, h')
    ∧ ((body h = (Returned reply, h'))
       ∨ ∃ e h1, body h = (Thrown e, h1)
                 ∧ reply = json_reply 500
                             (ErrorJson "Failed to process request" (exn_message e))
                 ∧ h' = h1 ++ [Logged "Error processing request:" (Some e)]).
Proof.
  unfold try_catch. destruct (body h) as [[reply|e] h1].
  - exists reply, h1. split; [done | by left].
  - eexists _, _. split; [by unfold_M|]. right. by exists e, h1.
Qed.
End Handlers.

Ltac enter_get Hm :=
  unfold OnIssuesHandler.fetch, AlwaysHandler.fetch; rewrite Hm;
  rewrite (bool_decide_eq_false_2 ("GET" = "OPTIONS")) by done;
  rewrite (bool_decide_eq_false_2 ("GET" ≠ "GET")) by (intros Hne; by apply Hne).

Section HandlerProperties.
Context `{Host}.

Lemma fetch_replies_on_issues (request : Request.t) (env : gmap string string)
    (h : list event) :
  ∃ reply h',
    OnIssuesHandler.fetch request env h = (Returned reply, h') ∧ well_formed_reply reply.
Proof.
  destruct (decide (Request.method request = "GET")) as [Hm|Hm].
  - enter_get Hm.
    match goal with
    | |- ∃ reply h', try_catch ?body _ h = _ ∧ _ =>
        destruct (fetch_get_caught body h)
          as (reply & h' & -> & [Hbody|(e & h1 & _ & -> & _)])
    end; eexists _, _; (split; [reflexivity|]); [|by apply json_reply_well_formed;
      repeat (first [apply list_elem_of_here | apply list_elem_of_further])].
    destruct (endsWith _ "/check/components");
      [apply route_returned in Hbody as (a & _ & ->)|
       destruct (endsWith _ "/check/incidents");
         [apply route_returned in Hbody as (a & _ & ->)|injection Hbody as <- _]];
      apply json_reply_well_formed, list_elem_of_here.
  - destruct (fetch_other_methods request env h Hm) as [-> _].
    eexists _, _. split; [done|]. case_bool_decide; (split; [done || apply corsHeaders_text|]);
      repeat (first [apply list_elem_of_here | apply list_elem_of_further]).
Qed.

Lemma fetch_replies_always (request : Request.t) (env : gmap string string)
    (h : list event) :
  ∃ reply h',
    AlwaysHandler.fetch request env h = (Returned reply, h') ∧ well_formed_reply reply.
Proof.
  destruct (decide (Request.method request = "GET")) as [Hm|Hm].
  - enter_get Hm.
    match goal with
    | |- ∃ reply h', try_catch ?body _ h = _ ∧ _ =>
        destruct (fetch_get_caught body h)
          as (reply & h' & -> & [Hbody|(e & h1 & _ & -> & _)])
    end; eexists _, _; (split; [reflexivity|]); [|by apply json_reply_well_formed;
      repeat (first [apply list_elem_of_here | apply list_elem_of_further])].
    destruct (endsWith _ "/check/components");
      [apply route_returned in Hbody as (a & _ & ->)|
       destruct (endsWith _ "/check/incidents");
         [apply route_returned in Hbody as (a & _ & ->)|
          destruct (endsWith _ "/check/all");
            [apply bind_inv_returned in Hbody as (c & h1 & _ & Hbody);
             apply bind_inv_returned in Hbody as (i & h2 & _ & Hbody)|];
            injection Hbody as <- _]];
      apply json_reply_well_formed, list_elem_of_here.
  - destruct (fetch_other_methods request env h Hm) as [_ ->].
    eexists _, _. split; [done|]. case_bool_decide; (split; [done || apply corsHeaders_text|]);
      repeat (first [apply list_elem_of_here | apply list_elem_of_further]).
Qed.

(** X18. The HTTP handler never throws: whatever the request, the
    environment and the network, both versions return a reply; its status
    is 200, 405 or 500 and it carries the three CORS headers. *)
Theorem fetch_always_replies (request : Request.t) (env : gmap string string)
    (h : list event) :
  (∃ reply h',
     OnIssuesHandler.fetch request env h = (Returned reply, h') ∧ well_formed_reply reply)
  ∧ (∃ reply h',
       AlwaysHandler.fetch request env h = (Returned reply, h') ∧ well_formed_reply reply).
Proof. split; [apply fetch_replies_on_issues | apply fetch_replies_always]. Qed.

(** X19. Only [GET] runs a check: for any other method, whatever the path,
    the handler makes no request and logs nothing; it replies 200 with no
    body to [OPTIONS], and 405 with the text [Method not allowed] to every
    other method. *)
Theorem fetch_method_gate (request : Request.t) (env : gmap string string)
    (h : list event) :
  Request.method request ≠ "GET" →
  let reply :=
    if bool_decide (Request.method request = "OPTIONS")
    then {| Reply.status := 200; Reply.headers := corsHeaders; Reply.body := NoBody |}
    else {| Reply.status := 405;
            Reply.headers := <["Content-Type" := "text/plain"]> corsHeaders;
            Reply.body := TextBody "Method not allowed" |} in
  OnIssuesHandler.fetch request env h = (Returned reply, h)
  ∧ AlwaysHandler.fetch request env h = (Returned reply, h).
Proof. apply fetch_other_methods. Qed.
End HandlerProperties.

Lemma fetch_method_gate_witness :
  let reply :=
    {| Reply.status := 405;
       Reply.headers := <["Content-Type" := "text/plain"]> corsHeaders;
       Reply.body := TextBody "Method not allowed" |} in
  OnIssuesHandler.fetch (H:=offline_host)
    {| Request.method := "POST"; Request.pathname := "/check/components" |} configured []
  = (Returned reply, [])
  ∧ AlwaysHandler.fetch (H:=offline_host)
      {| Request.method := "POST"; Request.pathname := "/check/components" |} configured []
    = (Returned reply, []).
Proof.
  apply (fetch_method_gate (H:=offline_host)
           {| Request.method := "POST"; Request.pathname := "/check/components" |}
           configured []).
  intros [=].
Defined.

Section Routes.
Context `{Host}.

Lemma route_components (request : Request.t) (env : gmap string string)
    (h : list event) :
  Request.method request = "GET" →
  endsWith (toLowerCase (Request.pathname request)) "/check/components" = true →
  (∀ r h1, NotifyOnIssues.checkICNComponents env h = (Returned r, h1) →
     OnIssuesHandler.fetch request env h
     = (Returned (json_reply 200 (ComponentsJson r)), h1))
  ∧ (∀ e h1, NotifyOnIssues.checkICNComponents env h = (Thrown e, h1) →
     OnIssuesHandler.fetch request env h
     = (Returned (json_reply 500 (ErrorJson "Failed to process request" (exn_message e))),
        h1 ++ [Logged "Error processing request:" (Some e)]))
  ∧ (∀ r h1, NotifyAlways.checkICNComponents env h = (Returned r, h1) →
     AlwaysHandler.fetch request env h
     = (Returned (json_reply 200 (ComponentsJson r)), h1))
  ∧ (∀ e h1, NotifyAlways.checkICNComponents env h = (Thrown e, h1) →
     AlwaysHandler.fetch request env h
     = (Returned (json_reply 500 (ErrorJson "Failed to process request" (exn_message e))),
        h1 ++ [Logged "Error processing request:" (Some e)])).
Proof.
  intros Hm Hpath. enter_get Hm. rewrite Hpath.
  unfold try_catch, mbind, M_bind, mret, M_ret, console_error.
  repeat split; intros ? h1 Hrun; by rewrite Hrun.
Qed.

Lemma route_incidents (request : Request.t) (env : gmap string string)
    (h : list event) :
  Request.method request = "GET" →
  endsWith (toLowerCase (Request.pathname request)) "/check/components" = false →
  endsWith (toLowerCase (Request.pathname request)) "/check/incidents" = true →
  (∀ r h1, checkUnresolvedIncidents env h = (Returned r, h1) →
     OnIssuesHandler.fetch request env h
     = (Returned (json_reply 200 (IncidentsJson r)), h1)
     ∧ AlwaysHandler.fetch request env h
       = (Returned (json_reply 200 (IncidentsJson r)), h1))
  ∧ (∀ e h1, checkUnresolvedIncidents env h = (Thrown e, h1) →
     let reply :=
       json_reply 500 (ErrorJson "Failed to process request" (exn_message e)) in
     OnIssuesHandler.fetch request env h
     = (Returned reply, h1 ++ [Logged "Error processing request:" (Some e)])
     ∧ AlwaysHandler.fetch request env h
       = (Returned reply, h1 ++ [Logged "Error processing request:" (Some e)])).
Proof.
  intros Hm Hc Hi. enter_get Hm. rewrite Hc, Hi.
  unfold try_catch, mbind, M_bind, mret, M_ret, console_error.
  split; intros x h1 Hrun; rewrite Hrun; by split.
Qed.

(** X20. On a [GET] whose lowercased path ends with [/check/components],
    the reply mirrors the components check: 200 with the report as JSON
    when the check returns, and 500 with the body [{error: 'Failed to
    process request', message: <the error's message>}] when it throws, the
    error being logged.  The same holds of the incidents check for a path
    that ends with [/check/incidents].  Both versions agree. *)
Theorem fetch_check_routes (request : Request.t) (env : gmap string string)
    (h : list event) :
  Request.method request = "GET" →
  ((∃ a, toLowerCase (Request.pathname request) = a +:+ "/check/components") →
   (∀ r h1, NotifyOnIssues.checkICNComponents env h = (Returned r, h1) →
      OnIssuesHandler.fetch request env h
      = (Returned (json_reply 200 (ComponentsJson r)), h1))
   ∧ (∀ e h1, NotifyOnIssues.checkICNComponents env h = (Thrown e, h1) →
      OnIssuesHandler.fetch request env h
      = (Returned (json_reply 500 (ErrorJson "Failed to process request" (exn_message e))),
         h1 ++ [Logged "Error processing request:" (Some e)]))
   ∧ (∀ r h1, NotifyAlways.checkICNComponents env h = (Returned r, h1) →
      AlwaysHandler.fetch request env h
      = (Returned (json_reply 200 (ComponentsJson r)), h1))
   ∧ (∀ e h1, NotifyAlways.checkICNComponents env h = (Thrown e, h1) →
      AlwaysHandler.fetch request env h
      = (Returned (json_reply 500 (ErrorJson "Failed to process request" (exn_message e))),
         h1 ++ [Logged "Error processing request:" (Some e)])))
  ∧ ((¬ ∃ a, toLowerCase (Request.pathname request) = a +:+ "/check/components") →
     (∃ a, toLowerCase (Request.pathname request) = a +:+ "/check/incidents") →
     (∀ r h1, checkUnresolvedIncidents env h = (Returned r, h1) →
        OnIssuesHandler.fetch request env h
        = (Returned (json_reply 200 (IncidentsJson r)), h1)
        ∧ AlwaysHandler.fetch request env h
          = (Returned (json_reply 200 (IncidentsJson r)), h1))
     ∧ (∀ e h1, checkUnresolvedIncidents env h = (Thrown e, h1) →
        let reply :=
          json_reply 500 (ErrorJson "Failed to process request" (exn_message e)) in
        OnIssuesHandler.fetch request env h
        = (Returned reply, h1 ++ [Logged "Error processing request:" (Some e)])
        ∧ AlwaysHandler.fetch request env h
          = (Returned reply, h1 ++ [Logged "Error processing request:" (Some e)]))).
Proof.
  intros Hm. split.
  - intros Hc%endsWith_spec. by apply route_components.
  - intros Hc Hi%endsWith_spec. apply route_incidents; [done| |done].
    apply not_true_is_false. by rewrite endsWith_spec.
Qed.

(** X21. An upstream failure surfaces as a 500: on a [GET] of a path
    ending with [/check/components], a response to the first fetch with a
    status outside 200-299 makes both versions reply 500 with the message
    [Failed to fetch components data: <status> <statusText>]. *)
Theorem fetch_upstream_failure_500 (request : Request.t) (env : gmap string string)
    (h : list event) (r : Response.t) :
  Request.method request = "GET" →
  (∃ a, toLowerCase (Request.pathname request) = a +:+ "/check/components") →
  network h (GET ENDPOINTS.components) = Responded r →
  ¬ (200 ≤ Response.status r ≤ 299)%nat →
  let reply :=
    json_reply 500
      (ErrorJson "Failed to process request"
         (Some ("Failed to fetch components data: " +:+ pretty (Response.status r)
                +:+ " " +:+ Response.statusText r))) in
  ∃ h', OnIssuesHandler.fetch request env h = (Returned reply, h')
        ∧ AlwaysHandler.fetch request env h = (Returned reply, h')
        ∧ no_post_since h h'.
Proof.
  intros Hm Hpath%endsWith_spec Hnet Hok%Response_ok_false reply.
  pose proof (fetchICNComponentsStatus_first_fails h r Hnet Hok) as Hf.
  destruct (checkICNComponents_rethrows env _ _ _ Hf) as [H1 H2].
  destruct (route_components request env h Hm Hpath) as (_ & Hon & _ & Halways).
  rewrite (Hon _ _ H1), (Halways _ _ H2).
  eexists. split; [reflexivity|]. split; [reflexivity|].
  eapply no_post_since_intro; [by rewrite <- !app_assoc | done].
Qed.
End Routes.

Lemma fetch_upstream_failure_500_witness :
  let request := {| Request.method := "GET"; Request.pathname := "/Check/Components" |} in
  let reply :=
    json_reply 500
      (ErrorJson "Failed to process request"
         (Some "Failed to fetch components data: 503 Service Unavailable")) in
  ∃ h', OnIssuesHandler.fetch (H:=offline_host) request configured [] = (Returned reply, h')
        ∧ AlwaysHandler.fetch (H:=offline_host) request configured [] = (Returned reply, h')
        ∧ no_post_since [] h'.
Proof.
  intros request reply.
  apply (fetch_upstream_failure_500 (H:=offline_host) request configured []
           {| Response.status := 503; Response.statusText := "Service Unavailable";
              Response.body := None |}).
  - reflexivity.
  - by exists "".
  - reflexivity.
  - simpl. lia.
Defined.

Lemma fetch_check_routes_witness :
  let request := {| Request.method := "GET"; Request.pathname := "/check/incidents" |} in
  let host := ascii_host (online (unresolved []) all_operational) in
  OnIssuesHandler.fetch (H:=host) request configured []
  = (Returned (json_reply 200 (IncidentsJson (incidentsReport (unresolved [])))),
     [Fetched (GET ENDPOINTS.incidents)])
  ∧ AlwaysHandler.fetch (H:=host) request configured []
    = (Returned (json_reply 200 (IncidentsJson (incidentsReport (unresolved [])))),
       [Fetched (GET ENDPOINTS.incidents)]).
Proof.
  intros request host.
  destruct (fetch_check_routes (H:=host) request configured [] eq_refl) as [_ Hroute].
  destruct Hroute as [Hreturned _].
  - intros Hends. apply endsWith_spec in Hends. vm_compute in Hends. discriminate.
  - by exists "".
  - apply Hreturned. reflexivity.
Defined.

Lemma last_char_app (a k : string) :
  k ≠ "" → last_char (a +:+ k) = last_char k.
Proof.
  intros Hk. induction a as [|c a IH]; [done|].
  rewrite append_cons. destruct (a +:+ k) as [|c' s] eqn:E.
  - destruct a as [|c' a].
    + change (k = "") in E. done.
    + by rewrite append_cons in E.
  - by rewrite <- IH.
Qed.

Lemma endsWith_other_suffix (s k1 k2 : string) :
  (∃ a, s = a +:+ k1) → k1 ≠ "" → k2 ≠ "" → last_char k1 ≠ last_char k2 →
  endsWith s k2 = false.
Proof.
  intros [a ->] Hk1 Hk2 Hlast. apply not_true_is_false.
  intros [b Hb]%endsWith_spec. apply Hlast.
  by rewrite <- (last_char_app a k1), Hb, last_char_app.
Qed.

Section OtherRoutes.
Context `{Host}.

(** X22. A [GET] whose lowercased path ends with none of the routes is
    answered with the status page and runs nothing: no request, no log.
    In the version that notifies on issues [/check/all] is no route: a
    path that ends with it gets the status page too. *)
Theorem fetch_default_route (request : Request.t) (env : gmap string string)
    (h : list event) :
  Request.method request = "GET" →
  let path := toLowerCase (Request.pathname request) in
  (¬ (∃ a, path = a +:+ "/check/components") →
   ¬ (∃ a, path = a +:+ "/check/incidents") →
   OnIssuesHandler.fetch request env h = (Returned (json_reply 200 statusPage), h)
   ∧ (¬ (∃ a, path = a +:+ "/check/all") →
      AlwaysHandler.fetch request env h = (Returned (json_reply 200 statusPage), h)))
  ∧ ((∃ a, path = a +:+ "/check/all") →
     OnIssuesHandler.fetch request env h = (Returned (json_reply 200 statusPage), h)).
Proof.
  intros Hm path. split.
  - intros Hc Hi.
    assert (endsWith path "/check/components" = false) as Ec
      by (apply not_true_is_false; by rewrite endsWith_spec).
    assert (endsWith path "/check/incidents" = false) as Ei
      by (apply not_true_is_false; by rewrite endsWith_spec).
    split.
    + enter_get Hm. fold path. by rewrite Ec, Ei.
    + intros Ha.
      assert (endsWith path "/check/all" = false) as Ea
        by (apply not_true_is_false; by rewrite endsWith_spec).
      enter_get Hm. fold path. by rewrite Ec, Ei, Ea.
  - intros Ha.
    assert (endsWith path "/check/components" = false) as Ec
      by (by eapply endsWith_other_suffix).
    assert (endsWith path "/check/incidents" = false) as Ei
      by (by eapply endsWith_other_suffix).
    enter_get Hm. fold path. by rewrite Ec, Ei.
Qed.

(** X23. In the version that always notifies, a [GET] whose lowercased
    path ends with [/check/all] runs the components check and then the
    incidents check.  When the components check throws, the incidents
    check is not run and the reply is 500; when the incidents check
    throws, the reply is 500 although the components check is done; when
    both return, the reply is 200 with both reports. *)
Theorem fetch_check_all (request : Request.t) (env : gmap string string)
    (h : list event) :
  Request.method request = "GET" →
  (∃ a, toLowerCase (Request.pathname request) = a +:+ "/check/all") →
  let failed e :=
    json_reply 500 (ErrorJson "Failed to process request" (exn_message e)) in
  (∀ e h1, NotifyAlways.checkICNComponents env h = (Thrown e, h1) →
     AlwaysHandler.fetch request env h
     = (Returned (failed e), h1 ++ [Logged "Error processing request:" (Some e)]))
  ∧ (∀ c h1, NotifyAlways.checkICNComponents env h = (Returned c, h1) →
       (∀ e h2, checkUnresolvedIncidents env h1 = (Thrown e, h2) →
          AlwaysHandler.fetch request env h
          = (Returned (failed e), h2 ++ [Logged "Error processing request:" (Some e)]))
       ∧ (∀ i h2, checkUnresolvedIncidents env h1 = (Returned i, h2) →
          AlwaysHandler.fetch request env h
          = (Returned
               (json_reply 200
                  (AllJson "success" "All checks completed and notifications sent" c i)),
             h2))).
Proof.
  intros Hm Ha failed.
  assert (endsWith (toLowerCase (Request.pathname request)) "/check/components" = false)
    as Ec by (by eapply endsWith_other_suffix).
  assert (endsWith (toLowerCase (Request.pathname request)) "/check/incidents" = false)
    as Ei by (by eapply endsWith_other_suffix).
  apply endsWith_spec in Ha.
  enter_get Hm. rewrite Ec, Ei, Ha.
  unfold try_catch, mbind, M_bind, mret, M_ret, console_error.
  split.
  - intros e h1 Hc. by rewrite Hc.
  - intros c h1 Hc. rewrite Hc. split; intros x h2 Hi; by rewrite Hi.
Qed.
End OtherRoutes.

Lemma fetch_default_route_witness :
  let request := {| Request.method := "GET"; Request.pathname := "/check/all" |} in
  OnIssuesHandler.fetch (H:=offline_host) request configured []
  = (Returned (json_reply 200 statusPage), []).
Proof.
  intros request.
  destruct (fetch_default_route (H:=offline_host) request configured [] eq_refl)
    as [_ Hall].
  apply Hall. by exists "".
Defined.

Lemma fetch_check_all_witness :
  let request := {| Request.method := "GET"; Request.pathname := "/check/all" |} in
  let e := Error "Failed to fetch components data: 503 Service Unavailable" in
  AlwaysHandler.fetch (H:=offline_host) request configured []
  = (Returned (json_reply 500 (ErrorJson "Failed to process request" (exn_message e))),
     [Fetched (GET ENDPOINTS.components);
      Logged "Error fetching ICN components status:" (Some e);
      Logged "Error checking ICN components status:" (Some e)]
     ++ [Logged "Error processing request:" (Some e)]).
Proof.
  intros request e.
  destruct (fetch_check_all (H:=offline_host) request configured [] eq_refl)
    as [Hthrown _].
  - by exists "".
  - apply Hthrown. reflexivity.
Defined.

(** ** The scheduled handler *)

(** X24. In the version that always notifies, the scheduled handler runs
    the components check and then the incidents check, and swallows no
    error: when the components check throws, the handler throws that error
    and the incidents check is not run; when the incidents check throws,
    the handler throws its error; otherwise it returns. *)
Theorem scheduled_always_sequence `{Host} (env : gmap string string) (h : list event) :
  (∀ e h1, NotifyAlways.checkICNComponents env h = (Thrown e, h1) →
     NotifyAlways.scheduled env h = (Thrown e, h1))
  ∧ (∀ c h1, NotifyAlways.checkICNComponents env h = (Returned c, h1) →
       (∀ e h2, checkUnresolvedIncidents env h1 = (Thrown e, h2) →
          NotifyAlways.scheduled env h = (Thrown e, h2))
       ∧ (∀ i h2, checkUnresolvedIncidents env h1 = (Returned i, h2) →
          NotifyAlways.scheduled env h = (Returned tt, h2))).
Proof.
  unfold NotifyAlways.scheduled, mbind, M_bind, mret, M_ret.
  split.
  - intros e h1 Hc. by rewrite Hc.
  - intros c h1 Hc. rewrite Hc. split; intros x h2 Hi; by rewrite Hi.
Qed.

(** X25. In the version that notifies on issues, the scheduled handler
    runs one check, chosen by the cron pattern: the components check when
    the pattern holds [*/6], the incidents check otherwise.  It returns
    when that check returns and throws the error that check throws; the
    other check is not run. *)
Theorem scheduled_on_issues_dispatch `{Host} (cron : string) (env : gmap string string)
    (h : list event) :
  (Substring "*/6" cron →
     (∀ r h1, NotifyOnIssues.checkICNComponents env h = (Returned r, h1) →
        NotifyOnIssues.scheduled cron env h = (Returned tt, h1))
     ∧ (∀ e h1, NotifyOnIssues.checkICNComponents env h = (Thrown e, h1) →
        NotifyOnIssues.scheduled cron env h = (Thrown e, h1)))
  ∧ (¬ Substring "*/6" cron →
     (∀ r h1, checkUnresolvedIncidents env h = (Returned r, h1) →
        NotifyOnIssues.scheduled cron env h = (Returned tt, h1))
     ∧ (∀ e h1, checkUnresolvedIncidents env h = (Thrown e, h1) →
        NotifyOnIssues.scheduled cron env h = (Thrown e, h1))).
Proof.
  unfold NotifyOnIssues.scheduled, mbind, M_bind, mret, M_ret.
  split.
  - intros Hcron%includes_spec. rewrite Hcron.
    split; intros x h1 Hc; by rewrite Hc.
  - intros Hcron. assert (includes cron "*/6" = false) as ->
      by (apply not_true_is_false; by rewrite includes_spec).
    split; intros x h1 Hc; by rewrite Hc.
Qed.

Lemma scheduled_on_issues_dispatch_witness :
  let e1 := Error "Failed to fetch components data: 503 Service Unavailable" in
  let e2 := Error "Failed to fetch incidents data: 503 Service Unavailable" in
  NotifyOnIssues.scheduled (H:=offline_host) "0 */6 * * *" configured []
  = (Thrown e1,
     [Fetched (GET ENDPOINTS.components);
      Logged "Error fetching ICN components status:" (Some e1);
      Logged "Error checking ICN components status:" (Some e1)])
  ∧ NotifyOnIssues.scheduled (H:=offline_host) "0 * * * *" configured []
    = (Thrown e2,
       [Fetched (GET ENDPOINTS.incidents);
        Logged "Error fetching unresolved incidents:" (Some e2);
        Logged "Error checking unresolved incidents:" (Some e2)]).
Proof.
  intros e1 e2.
  destruct (scheduled_on_issues_dispatch (H:=offline_host) "0 */6 * * *" configured [])
    as [Hsix _].
  destruct (scheduled_on_issues_dispatch (H:=offline_host) "0 * * * *" configured [])
    as [_ Hhour].
  split.
  - destruct Hsix as [_ Hthrown]; [by exists "0 ", " * * *"|].
    apply Hthrown. reflexivity.
  - destruct Hhour as [_ Hthrown].
    + intros Hsub%includes_spec. vm_compute in Hsub. discriminate.
    + apply Hthrown. reflexivity.
Defined.
